(** * Inver-Track: the financial projection engine

    A shallow embedding of the two pure calculations of [src/App.tsx]:
    the portfolio [summary] (lines 74-81) and the [dailyProjection] loop
    (lines 90-141), together with the daily rate of the first, salary-free
    revision of the projection kept in [src/unnamed/part_001] (line 53).

    Numbers.  A TypeScript [number] is modelled as a real number of the
    Standard Library ([R]): [+], [*], [/] and [>] are the exact operations
    and [Math.pow] on a positive base is [Rpower].  Rounding, [NaN] and the
    infinities of IEEE doubles are outside this model, which is used for
    the statements that follow the operations of the program one by one.
    Where rounding decides, the summary is also given on the binary64
    numbers themselves ([Double.summary], which computes) and as a relation
    on the reals in which every operation is rounded ([summaryRounded]).

    Dates.  A JavaScript [Date] is modelled by its local calendar fields
    and its local time of day; the platform's day arithmetic ([setDate],
    the [Date (y, m, d)] constructor, [toISOString]) is modelled on the
    proleptic Gregorian calendar. *)

From Stdlib Require Import Reals Lra List String Ascii ZArith Lia Bool.
From Stdlib Require Import Floats.PrimFloat Floats.SpecFloat Floats.FloatOps.
Import ListNotations.

Local Open Scope R_scope.

(** ** Data model ([src/types.ts]) *)

Module Investment.
Record t : Type := mk {
  id : string;
  name : string;
  amount : R;
  annualYield : R
}.
End Investment.

Module AdditionalIncome.
Record t : Type := mk {
  id : string;
  description : string;
  amount : R;
  date : string
}.
End AdditionalIncome.

Module PortfolioSummary.
Record t : Type := mk {
  totalAmount : R;
  weightedAverageYield : R;
  monthlyIncome : R
}.
End PortfolioSummary.

(** ** The aggregator: [summary] (App.tsx, lines 74-81)

    [reduce (fun sum inv => ...) 0] is a left fold from [0]; the
    conditional expression [totalAmount > 0 ? a : b] is a decision on
    [0 < totalAmount]. *)

Definition summary (investments : list Investment.t) : PortfolioSummary.t :=
  let totalAmount :=
    fold_left (fun sum inv => sum + Investment.amount inv) investments 0 in
  let weightedSum :=
    fold_left
      (fun sum inv => sum + Investment.amount inv * Investment.annualYield inv)
      investments 0 in
  let weightedAverageYield :=
    if Rlt_dec 0 totalAmount then weightedSum / totalAmount else 0 in
  let monthlyIncome := (totalAmount * (weightedAverageYield / 100)) / 12 in
  PortfolioSummary.mk totalAmount weightedAverageYield monthlyIncome.

(** The sums of the specification, written as the mathematical [Σ] over the
    accounts (a right-nested sum, independent of the fold of the code). *)

Fixpoint sigma (f : Investment.t -> R) (l : list Investment.t) : R :=
  match l with
  | [] => 0
  | inv :: rest => f inv + sigma f rest
  end.

Definition sumAmounts (l : list Investment.t) : R :=
  sigma Investment.amount l.

Definition sumAmountYield (l : list Investment.t) : R :=
  sigma (fun inv => Investment.amount inv * Investment.annualYield inv) l.

(** Smallest and largest individual yield of a non-empty account list. *)

Definition minYield (l : list Investment.t) : option R :=
  match l with
  | [] => None
  | inv :: rest =>
      Some (fold_left (fun m i => Rmin m (Investment.annualYield i))
              rest (Investment.annualYield inv))
  end.

Definition maxYield (l : list Investment.t) : option R :=
  match l with
  | [] => None
  | inv :: rest =>
      Some (fold_left (fun m i => Rmax m (Investment.annualYield i))
              rest (Investment.annualYield inv))
  end.

Definition nonNegativeAmounts (l : list Investment.t) : Prop :=
  Forall (fun inv => 0 <= Investment.amount inv) l.

(** "The weighted average lies between the minimum and the maximum of the
    yields present". *)

Definition yieldWithinRange (l : list Investment.t) : Prop :=
  exists lo hi,
    minYield l = Some lo /\ maxYield l = Some hi /\
    lo <= PortfolioSummary.weightedAverageYield (summary l) <= hi.

(** ** The aggregator on floating-point numbers

    The numbers of the program are IEEE binary64.  [Double.summary] is
    [summary] on the primitive binary64 numbers of Rocq, with the same
    rounded operations as the program: it computes what the program
    computes. *)

Module Double.

Record Investment : Type := mkInvestment {
  id : string;
  name : string;
  amount : float;
  annualYield : float
}.

Record PortfolioSummary : Type := mkSummary {
  totalAmount : float;
  weightedAverageYield : float;
  monthlyIncome : float
}.

Definition summary (investments : list Investment) : PortfolioSummary :=
  let totalAmount :=
    fold_left (fun sum inv => (sum + amount inv)%float) investments 0%float in
  let weightedSum :=
    fold_left (fun sum inv => (sum + amount inv * annualYield inv)%float)
      investments 0%float in
  let weightedAverageYield :=
    if PrimFloat.ltb 0 totalAmount
    then (weightedSum / totalAmount)%float else 0%float in
  let monthlyIncome :=
    ((totalAmount * (weightedAverageYield / 100)) / 12)%float in
  mkSummary totalAmount weightedAverageYield monthlyIncome.

End Double.

(** The real number that a finite binary64 number stands for, from its sign,
    mantissa and exponent; the images of an investment and of a summary. *)

Definition realOfSpec (f : spec_float) : R :=
  match f with
  | S754_finite s m e =>
      let v := if (0 <=? e)%Z then IZR (Zpos m * 2 ^ e)
               else IZR (Zpos m) / IZR (2 ^ (- e)) in
      if s then - v else v
  | _ => 0
  end.

Definition realOfFloat (f : float) : R := realOfSpec (Prim2SF f).

Definition realInvestment (inv : Double.Investment) : Investment.t :=
  Investment.mk (Double.id inv) (Double.name inv)
    (realOfFloat (Double.amount inv)) (realOfFloat (Double.annualYield inv)).

Definition realSummary (s : Double.PortfolioSummary) : PortfolioSummary.t :=
  PortfolioSummary.mk (realOfFloat (Double.totalAmount s))
    (realOfFloat (Double.weightedAverageYield s))
    (realOfFloat (Double.monthlyIncome s)).

(** For statements on all inputs, rounding is modelled on the reals: an
    operation whose exact result is [x] returns [x * (1 + d)] for some [d]
    of absolute value at most [2^-53], the unit roundoff of binary64 in
    rounding to nearest.  This holds of every binary64 operation that
    neither overflows nor underflows.  [summaryRounded investments s]
    says that [s] is a result of lines 75-80 when each [+], [*] and [/]
    is rounded in this way; the rounding errors are not determined, so
    that this is a relation. *)

Definition unitRoundoff : R := / 2 ^ 53.

Definition rounded (exact result : R) : Prop :=
  exists d : R, Rabs d <= unitRoundoff /\ result = exact * (1 + d).

(** [investments.reduce ((sum, inv) => sum + term (inv), acc)], where
    [term inv t] says that [t] is a value of the term for [inv]. *)

Inductive reduceRounded (term : Investment.t -> R -> Prop)
    : R -> list Investment.t -> R -> Prop :=
| reduce_done (acc : R) : reduceRounded term acc [] acc
| reduce_step (acc : R) (inv : Investment.t) (rest : list Investment.t)
    (t sum result : R) :
    term inv t -> rounded (acc + t) sum ->
    reduceRounded term sum rest result ->
    reduceRounded term acc (inv :: rest) result.

Definition summaryRounded (investments : list Investment.t)
    (s : PortfolioSummary.t) : Prop :=
  exists weightedSum percent product : R,
    reduceRounded (fun inv t => t = Investment.amount inv)
      0 investments (PortfolioSummary.totalAmount s) /\
    reduceRounded
      (fun inv t =>
         rounded (Investment.amount inv * Investment.annualYield inv) t)
      0 investments weightedSum /\
    (if Rlt_dec 0 (PortfolioSummary.totalAmount s)
     then rounded (weightedSum / PortfolioSummary.totalAmount s)
            (PortfolioSummary.weightedAverageYield s)
     else PortfolioSummary.weightedAverageYield s = 0) /\
    rounded (PortfolioSummary.weightedAverageYield s / 100) percent /\
    rounded (PortfolioSummary.totalAmount s * percent) product /\
    rounded (product / 12) (PortfolioSummary.monthlyIncome s).

(** The slack that the rounding of [n] accounts leaves around the range of
    the yields, as a multiple of the largest absolute yield: about
    [(3 n + 2) * 2^-53]. *)

Definition roundingSlack (n : nat) : R :=
  ((1 + unitRoundoff) ^ (n + 2) + (1 + unitRoundoff) ^ n
   - (1 - unitRoundoff) ^ n - 1)
  / (1 - unitRoundoff) ^ n.

(** The sum of the absolute values of the terms of the weighted sum. *)

Definition sumAbsAmountYield (l : list Investment.t) : R :=
  sigma (fun inv => Investment.amount inv * Rabs (Investment.annualYield inv))
    l.

(** ** The platform's [Date]

    Local calendar fields as the accessors of the source read them:
    [getMonth] is zero-based, [getDate] is the day of the month.
    [msOfDay] is the local time within the day, which [setDate] keeps. *)

Module JsDate.
Local Open Scope Z_scope.

Record t : Type := mk {
  getFullYear : Z;
  getMonth : Z;
  getDate : Z;
  msOfDay : Z
}.

Definition msPerDay : Z := 86400000.

Definition isLeapYear (y : Z) : bool :=
  ((y mod 4 =? 0) && negb (y mod 100 =? 0)) || (y mod 400 =? 0).

Definition daysInMonth (y m : Z) : Z :=
  match m with
  | 1 => if isLeapYear y then 29 else 28
  | 3 | 5 | 8 | 10 => 30
  | _ => 31
  end.

Definition valid (d : t) : bool :=
  (0 <=? getMonth d) && (getMonth d <=? 11) &&
  (1 <=? getDate d) && (getDate d <=? daysInMonth (getFullYear d) (getMonth d)) &&
  (0 <=? msOfDay d) && (msOfDay d <? msPerDay).

Definition nextDay (d : t) : t :=
  if getDate d <? daysInMonth (getFullYear d) (getMonth d)
  then mk (getFullYear d) (getMonth d) (getDate d + 1) (msOfDay d)
  else if getMonth d <? 11
  then mk (getFullYear d) (getMonth d + 1) 1 (msOfDay d)
  else mk (getFullYear d + 1) 0 1 (msOfDay d).

Definition prevDay (d : t) : t :=
  if 1 <? getDate d
  then mk (getFullYear d) (getMonth d) (getDate d - 1) (msOfDay d)
  else if 0 <? getMonth d
  then mk (getFullYear d) (getMonth d - 1)
          (daysInMonth (getFullYear d) (getMonth d - 1)) (msOfDay d)
  else mk (getFullYear d - 1) 11 31 (msOfDay d).

(** The date [k] days after [d] (before it, when [k] is negative). *)

Definition addDays (d : t) (k : Z) : t :=
  if 0 <=? k
  then Nat.iter (Z.to_nat k) nextDay d
  else Nat.iter (Z.to_nat (- k)) prevDay d.

(** ECMAScript's [MakeDay]: the month is normalised into the year, and the
    result is the first of that month moved by [date - 1] days, so that
    a day of the month outside the month rolls over. *)

Definition makeDate (year month date ms : Z) : t :=
  addDays (mk (year + month / 12) (month mod 12) 1 ms) (date - 1).

(** [new Date (year, monthIndex, day)]: local midnight; a year in [0..99]
    stands for [1900 + year]. *)

Definition newDate (year monthIndex day : Z) : t :=
  let yr := if (0 <=? year) && (year <=? 99) then 1900 + year else year in
  makeDate yr monthIndex day 0.

(** [d.setDate (n)]: same year, month and time of day, day of month [n]. *)

Definition setDate (d : t) (n : Z) : t :=
  makeDate (getFullYear d) (getMonth d) n (msOfDay d).

(** Decimal digits, most significant first, on a fixed width. *)

Definition digitChar (n : Z) : ascii :=
  ascii_of_nat (48 + Z.to_nat (n mod 10)).

Fixpoint padDigits (width : nat) (n : Z) : string :=
  match width with
  | O => EmptyString
  | S w => (padDigits w (n / 10) ++ String (digitChar n) EmptyString)%string
  end.

(** The UTC calendar date of [d], where [offset] is the value of
    [getTimezoneOffset] at [d]: minutes to add to local time. *)

Definition toUTC (offset : Z) (d : t) : t :=
  let ms := msOfDay d + offset * 60000 in
  let u := addDays d (ms / msPerDay) in
  mk (getFullYear u) (getMonth u) (getDate u) (ms mod msPerDay).

(** [d.toISOString ().split ('T')[0]]: the date part of the ISO string,
    four digits for the years [0..9999], a sign and six digits otherwise. *)

Definition isoYear (y : Z) : string :=
  if (0 <=? y) && (y <=? 9999) then padDigits 4 y
  else if y <? 0 then ("-" ++ padDigits 6 (- y))%string
  else ("+" ++ padDigits 6 y)%string.

Definition isoDatePart (offset : Z) (d : t) : string :=
  let u := toUTC offset d in
  (isoYear (getFullYear u) ++ "-" ++ padDigits 2 (getMonth u + 1)
     ++ "-" ++ padDigits 2 (getDate u))%string.

End JsDate.

(** ** The projector: [dailyProjection] (App.tsx, lines 90-141) *)

Module ProjectionDay.
Record t : Type := mk {
  day : nat;
  date : string;
  earned : R;
  income : R;
  events : list string;
  total : R
}.
End ProjectionDay.

(** The daily rate of the loop (lines 93-95): the conversion is guarded by
    [weightedAverageYield > 0]. *)

Definition dailyRate (weightedAverageYield : R) : R :=
  if Rlt_dec 0 weightedAverageYield
  then Rpower (1 + weightedAverageYield / 100) (1 / 365) - 1
  else 0.

(** The daily rate of the first revision (part_001, line 53), which has no
    guard.  [Rpower] is [Math.pow] for a positive base only, that is for a
    yield above [-100]; at [-100] and below, the result of the program
    ([-1], or not a number) is outside this model, and the statements on
    the first revision assume a yield above [-100]. *)

Definition dailyRate_unguarded (weightedAverageYield : R) : R :=
  Rpower (1 + weightedAverageYield / 100) (1 / 365) - 1.

(** The conversion formula of the specification. *)

Definition compoundDailyRate (annualYieldPercent : R) : R :=
  Rpower (1 + annualYieldPercent / 100) (1 / 365) - 1.

Section Projector.

(** The formatters of [Intl] and the time zone rules of the platform are
    left abstract. *)

Variable formatCurrency : R -> string.
Variable dateFormatter_format : JsDate.t -> string.
Variable getTimezoneOffset : JsDate.t -> Z.

Variable summary_ : PortfolioSummary.t.
Variable salary : R.
Variable extraIncomes : list AdditionalIncome.t.
Variable startDate : JsDate.t.

Definition salaryLabel : string :=
  ("Quincena: +" ++ formatCurrency salary)%string.

(** [extra.description || 'Ingreso Extra']: the empty string is falsy. *)

Definition extraLabel (extra : AdditionalIncome.t) : string :=
  ((if String.eqb (AdditionalIncome.description extra) ""
    then "Ingreso Extra" else AdditionalIncome.description extra)
   ++ ": +" ++ formatCurrency (AdditionalIncome.amount extra))%string.

(** Lines 100-101. *)

Definition currentDateOf (i : nat) : JsDate.t :=
  JsDate.setDate startDate (JsDate.getDate startDate + Z.of_nat i + 1)%Z.

(** Lines 103-104 and the test of line 110. *)

Definition monthDaysOf (currentDate : JsDate.t) : Z :=
  JsDate.getDate
    (JsDate.newDate (JsDate.getFullYear currentDate)
       (JsDate.getMonth currentDate + 1)%Z 0%Z).

Definition salaryCondition (currentDate : JsDate.t) : bool :=
  let dayOfMonth := JsDate.getDate currentDate in
  let monthDays := monthDaysOf currentDate in
  (dayOfMonth =? 15)%Z || (dayOfMonth =? monthDays)%Z.

Definition isoDateOf (currentDate : JsDate.t) : string :=
  JsDate.isoDatePart (getTimezoneOffset currentDate) currentDate.

(** The callback of [forEach] (lines 117-122), on the pair of the two
    variables it updates. *)

Definition injectExtra (isoDate : string) (st : R * list string)
    (extra : AdditionalIncome.t) : R * list string :=
  let '(incomeToday, events) := st in
  if String.eqb (AdditionalIncome.date extra) isoDate
  then (incomeToday + AdditionalIncome.amount extra,
        events ++ [extraLabel extra])
  else (incomeToday, events).

(** Lines 106-122: the income and the events of one day. *)

Definition dayInjections (currentDate : JsDate.t) : R * list string :=
  let events : list string := [] in
  let incomeToday := 0 in
  let '(incomeToday, events) :=
    if salaryCondition currentDate
    then (incomeToday + salary, events ++ [salaryLabel])
    else (incomeToday, events) in
  let isoDate := isoDateOf currentDate in
  fold_left (injectExtra isoDate) extraIncomes (incomeToday, events).

(** One iteration of the loop, on the state [(currentCapital, results)]. *)

Definition projectionStep (st : R * list ProjectionDay.t) (i : nat)
    : R * list ProjectionDay.t :=
  let '(currentCapital, results) := st in
  let currentDate := currentDateOf i in
  let '(incomeToday, events) := dayInjections currentDate in
  let currentCapital := currentCapital + incomeToday in
  let dailyEarned :=
    currentCapital
    * dailyRate (PortfolioSummary.weightedAverageYield summary_) in
  let currentCapital := currentCapital + dailyEarned in
  (currentCapital,
   results ++ [ProjectionDay.mk (i + 1) (dateFormatter_format currentDate)
                 dailyEarned incomeToday events currentCapital]).

(** [for (let i = 0; i < projectionDays; i++)]: the body runs on
    [i = 0, ..., projectionDays - 1]. *)

Definition projectionLoop (projectionDays : nat) : R * list ProjectionDay.t :=
  fold_left projectionStep (seq 0 projectionDays)
    (PortfolioSummary.totalAmount summary_, []).

Definition dailyProjection (projectionDays : nat) : list ProjectionDay.t :=
  snd (projectionLoop projectionDays).

(** The record that one iteration pushes, as a function of the capital it
    starts from; [projectionStep_eq] below relates it to the loop body. *)

Definition dayRecord (currentCapital : R) (i : nat) : ProjectionDay.t :=
  let currentDate := currentDateOf i in
  let incomeToday := fst (dayInjections currentDate) in
  let events := snd (dayInjections currentDate) in
  let dailyEarned :=
    (currentCapital + incomeToday)
    * dailyRate (PortfolioSummary.weightedAverageYield summary_) in
  ProjectionDay.mk (i + 1) (dateFormatter_format currentDate)
    dailyEarned incomeToday events (currentCapital + incomeToday + dailyEarned).

(** The running capital before day [i + 1]: the starting capital, then the
    [total] of the day before. *)

Definition totalBefore (projection : list ProjectionDay.t) (i : nat) : R :=
  match i with
  | O => PortfolioSummary.totalAmount summary_
  | S j =>
      match nth_error projection j with
      | Some r => ProjectionDay.total r
      | None => 0
      end
  end.

(** The extra incomes of a day, as the specification words them. *)

Definition matchingExtras (isoDate : string) : list AdditionalIncome.t :=
  filter (fun extra => String.eqb (AdditionalIncome.date extra) isoDate)
    extraIncomes.

End Projector.

(** The salary days of the specification: the 15th and the last day of the
    month, from the table of month lengths. *)

Definition isSalaryDay (d : JsDate.t) : bool :=
  (JsDate.getDate d =? 15)%Z
  || (JsDate.getDate d
      =? JsDate.daysInMonth (JsDate.getFullYear d) (JsDate.getMonth d))%Z.

(** ** The state and its handlers (App.tsx, lines 33-36, 143-179 and 421)

    Each handler is the function passed to [setData]: it maps the previous
    state to the next one.  The value of [crypto.randomUUID ()] and the
    current date are arguments. *)

Module AppData.
Record t : Type := mk {
  investments : list Investment.t;
  salary : R;
  extraIncomes : list AdditionalIncome.t
}.
End AppData.

(** The pair [field, value] of [updateInvestment], with the value at the
    type of the field. *)

Inductive InvestmentField : Type :=
| InvId (value : string)
| InvName (value : string)
| InvAmount (value : R)
| InvAnnualYield (value : R).

(** [{ ...inv, [field]: value }] *)

Definition setInvestmentField (inv : Investment.t) (fv : InvestmentField)
    : Investment.t :=
  match fv with
  | InvId v =>
      Investment.mk v (Investment.name inv) (Investment.amount inv)
        (Investment.annualYield inv)
  | InvName v =>
      Investment.mk (Investment.id inv) v (Investment.amount inv)
        (Investment.annualYield inv)
  | InvAmount v =>
      Investment.mk (Investment.id inv) (Investment.name inv) v
        (Investment.annualYield inv)
  | InvAnnualYield v =>
      Investment.mk (Investment.id inv) (Investment.name inv)
        (Investment.amount inv) v
  end.

Inductive AdditionalIncomeField : Type :=
| IncId (value : string)
| IncDescription (value : string)
| IncAmount (value : R)
| IncDate (value : string).

Definition setIncomeField (item : AdditionalIncome.t)
    (fv : AdditionalIncomeField) : AdditionalIncome.t :=
  match fv with
  | IncId v =>
      AdditionalIncome.mk v (AdditionalIncome.description item)
        (AdditionalIncome.amount item) (AdditionalIncome.date item)
  | IncDescription v =>
      AdditionalIncome.mk (AdditionalIncome.id item) v
        (AdditionalIncome.amount item) (AdditionalIncome.date item)
  | IncAmount v =>
      AdditionalIncome.mk (AdditionalIncome.id item)
        (AdditionalIncome.description item) v (AdditionalIncome.date item)
  | IncDate v =>
      AdditionalIncome.mk (AdditionalIncome.id item)
        (AdditionalIncome.description item) (AdditionalIncome.amount item) v
  end.

Definition updateSalary (val : R) (prev : AppData.t) : AppData.t :=
  AppData.mk (AppData.investments prev) val (AppData.extraIncomes prev).

Definition addExtraIncome (uuid : string) (getTimezoneOffset : JsDate.t -> Z)
    (now : JsDate.t) (prev : AppData.t) : AppData.t :=
  let newIncome :=
    AdditionalIncome.mk uuid "Ingreso Extra" 0
      (JsDate.isoDatePart (getTimezoneOffset now) now) in
  AppData.mk (AppData.investments prev) (AppData.salary prev)
    (AppData.extraIncomes prev ++ [newIncome]).

Definition updateExtraIncome (id : string) (fv : AdditionalIncomeField)
    (prev : AppData.t) : AppData.t :=
  AppData.mk (AppData.investments prev) (AppData.salary prev)
    (map (fun item =>
            if String.eqb (AdditionalIncome.id item) id
            then setIncomeField item fv else item)
       (AppData.extraIncomes prev)).

Definition removeExtraIncome (id : string) (prev : AppData.t) : AppData.t :=
  AppData.mk (AppData.investments prev) (AppData.salary prev)
    (filter (fun item => negb (String.eqb (AdditionalIncome.id item) id))
       (AppData.extraIncomes prev)).

Definition updateInvestment (id : string) (fv : InvestmentField)
    (prev : AppData.t) : AppData.t :=
  AppData.mk
    (map (fun inv =>
            if String.eqb (Investment.id inv) id
            then setInvestmentField inv fv else inv)
       (AppData.investments prev))
    (AppData.salary prev) (AppData.extraIncomes prev).

Definition addInvestment (uuid : string) (prev : AppData.t) : AppData.t :=
  AppData.mk (AppData.investments prev ++ [Investment.mk uuid "" 0 0])
    (AppData.salary prev) (AppData.extraIncomes prev).

(** The handler of the delete button (line 421; [deleteInvestment] in the
    earlier revisions). *)

Definition deleteInvestment (id : string) (prev : AppData.t) : AppData.t :=
  AppData.mk
    (filter (fun i => negb (String.eqb (Investment.id i) id))
       (AppData.investments prev))
    (AppData.salary prev) (AppData.extraIncomes prev).

(** [kept] is [full] with some elements left out, the others in the order
    they had. *)

Inductive subsequence {A : Type} : list A -> list A -> Prop :=
| subsequence_nil : subsequence [] []
| subsequence_keep (x : A) (kept full : list A) :
    subsequence kept full -> subsequence (x :: kept) (x :: full)
| subsequence_drop (x : A) (kept full : list A) :
    subsequence kept full -> subsequence kept (x :: full).

(** The number of records that carry an id. *)

Definition countId {A : Type} (key : A -> string) (id : string) (l : list A)
    : nat :=
  count_occ string_dec (map key l) id.

(** The two derived values of a state, as the component computes them. *)

Definition summaryOf (data : AppData.t) : PortfolioSummary.t :=
  summary (AppData.investments data).

Definition projectionOf (formatCurrency : R -> string)
    (dateFormatter_format : JsDate.t -> string)
    (getTimezoneOffset : JsDate.t -> Z) (startDate : JsDate.t)
    (projectionDays : nat) (data : AppData.t) : list ProjectionDay.t :=
  dailyProjection formatCurrency dateFormatter_format getTimezoneOffset
    (summaryOf data) (AppData.salary data) (AppData.extraIncomes data)
    startDate projectionDays.

(** ** The first revision of the projection (part_001, lines 49-72)

    Interest only: no salary, no extra income, and a daily rate that is
    not guarded. *)

Module FirstRevision.

Record ProjectionDay : Type := mkDay {
  day : nat;
  date : string;
  earned : R;
  total : R
}.

Section Projection.

Variable dateFormatter_format : JsDate.t -> string.
Variable summary_ : PortfolioSummary.t.
Variable startDate : JsDate.t.

Definition projectionStep (st : R * list ProjectionDay) (i : nat)
    : R * list ProjectionDay :=
  let '(currentCapital, data) := st in
  let dailyRate :=
    dailyRate_unguarded (PortfolioSummary.weightedAverageYield summary_) in
  let dailyEarned := currentCapital * dailyRate in
  let currentCapital := currentCapital + dailyEarned in
  let currentDate :=
    JsDate.setDate startDate (JsDate.getDate startDate + Z.of_nat i + 1)%Z in
  (currentCapital,
   data ++ [mkDay (i + 1) (dateFormatter_format currentDate)
              dailyEarned currentCapital]).

Definition projectionLoop (projectionDays : nat) : R * list ProjectionDay :=
  fold_left projectionStep (seq 0 projectionDays)
    (PortfolioSummary.totalAmount summary_, []).

Definition dailyProjection (projectionDays : nat) : list ProjectionDay :=
  snd (projectionLoop projectionDays).

(** The record that one iteration pushes, as a function of the capital it
    starts from. *)

Definition dayRecord (currentCapital : R) (i : nat) : ProjectionDay :=
  let dailyRate :=
    dailyRate_unguarded (PortfolioSummary.weightedAverageYield summary_) in
  mkDay (i + 1)
    (dateFormatter_format
       (JsDate.setDate startDate
          (JsDate.getDate startDate + Z.of_nat i + 1)%Z))
    (currentCapital * dailyRate)
    (currentCapital + currentCapital * dailyRate).

End Projection.
End FirstRevision.

(** ** The colours of the chart (part_001, lines 17, 307 and 320) *)

Definition COLORS : list string :=
  ["#0ea5e9"; "#10b981"; "#f59e0b"; "#ef4444"; "#8b5cf6"; "#ec4899";
   "#64748b"]%string.

(** [COLORS[index % COLORS.length]] *)

Definition colorOf (index : nat) : option string :=
  nth_error COLORS (index mod List.length COLORS).

(** ** Days of a month *)

Definition daysOfMonth (y m ms : Z) : list JsDate.t :=
  map (fun k => JsDate.mk y m (Z.of_nat k) ms)
    (seq 1 (Z.to_nat (JsDate.daysInMonth y m))).

(** The date part of the ISO string of the local calendar date itself. *)

Definition localIsoDate (d : JsDate.t) : string :=
  (JsDate.isoYear (JsDate.getFullYear d) ++ "-"
     ++ JsDate.padDigits 2 (JsDate.getMonth d + 1)
     ++ "-" ++ JsDate.padDigits 2 (JsDate.getDate d))%string.

(** ** Sample inputs

    The account of the specification's scenario, an account with no
    capital, and accounts with a negative yield or a negative amount (no
    input of the program is validated); plain formatters, the time zone of
    Mexico City, two start dates at ten in the morning (14 November 2026
    and 27 February 2027), one in the evening, and two accounts on
    binary64 numbers. *)

Definition sampleAccount : Investment.t := Investment.mk "1" "Cuenta" 1000 12.

Definition emptyAccount : Investment.t := Investment.mk "2" "Efectivo" 0 5.

Definition losingAccount : Investment.t :=
  Investment.mk "3" "Fondo" 1000 (-10).

Definition debtAccount : Investment.t := Investment.mk "4" "Deuda" (-500) 3.

Definition plainCurrency (val : R) : string := "$".

Definition plainDate (d : JsDate.t) : string := JsDate.isoDatePart 0 d.

Definition mexicoCity (d : JsDate.t) : Z := 360%Z.

Definition novemberStart : JsDate.t := JsDate.mk 2026 10 14 36000000.

Definition februaryStart : JsDate.t := JsDate.mk 2027 1 27 36000000.

Definition sampleExtras : list AdditionalIncome.t :=
  [AdditionalIncome.mk "a" "Bono" 500 "2026-11-15";
   AdditionalIncome.mk "b" "" 250 "2026-11-15";
   AdditionalIncome.mk "c" "Venta" 100 "2026-11-16"].

Definition novemberProjection : list ProjectionDay.t :=
  dailyProjection plainCurrency plainDate mexicoCity
    (summary [sampleAccount]) 2000 sampleExtras novemberStart 3.

Definition februaryProjection : list ProjectionDay.t :=
  dailyProjection plainCurrency plainDate mexicoCity
    (summary [sampleAccount]) 0 [] februaryStart 3.

Definition sampleData : AppData.t :=
  AppData.mk [sampleAccount; emptyAccount] 2000 sampleExtras.

Definition debtProjection : list ProjectionDay.t :=
  dailyProjection plainCurrency plainDate mexicoCity
    (summary [debtAccount]) 2000 sampleExtras novemberStart 3.

(** Eight in the evening of 13 November 2026 in Mexico City, and an extra
    income dated 15 November. *)

Definition eveningStart : JsDate.t := JsDate.mk 2026 10 13 72000000.

Definition bonus : AdditionalIncome.t :=
  AdditionalIncome.mk "a" "Bono" 500 "2026-11-15".

Definition eveningProjection : list ProjectionDay.t :=
  dailyProjection plainCurrency localIsoDate mexicoCity
    (summary [sampleAccount]) 0 [bonus] eveningStart 3.

(** Two accounts at the same yield of 11.76 percent, on binary64
    numbers. *)

#[warnings="-inexact-float"]
Definition sameYieldDoubles : list Double.Investment :=
  [Double.mkInvestment "1" "Open Bank" 223045 11.76;
   Double.mkInvestment "4" "ML" 24982 11.76].

#[warnings="-inexact-float"]
Definition yieldDouble : float := 11.76%float.

(** Evaluation of the projection that leaves the real numbers alone. *)

Ltac evalProjection :=
  lazy -[Rplus Rmult Rdiv Rminus Ropp Rinv Rpower Rlt_dec IZR].

Ltac evalProjectionIn H :=
  lazy -[Rplus Rmult Rdiv Rminus Ropp Rinv Rpower Rlt_dec IZR] in H.

(** Replaces [realOfFloat f], for a closed [f], by the fraction of integers
    that it is. *)

Ltac evalFloat f :=
  let v := eval vm_compute in (Prim2SF f) in
  let r := eval cbv in (match v with
                        | S754_finite s m e =>
                            if (0 <=? e)%Z then (s, (Zpos m * 2 ^ e)%Z, 1%Z)
                            else (s, Zpos m, (2 ^ (- e))%Z)
                        | _ => (false, 0%Z, 1%Z)
                        end) in
  lazymatch r with
  | (false, ?m, 1%Z) =>
      replace (realOfFloat f) with (IZR m)
        by (unfold realOfFloat;
            replace (Prim2SF f) with v by (vm_compute; reflexivity);
            reflexivity)
  | (false, ?m, ?d) =>
      replace (realOfFloat f) with (IZR m / IZR d)
        by (unfold realOfFloat;
            replace (Prim2SF f) with v by (vm_compute; reflexivity);
            reflexivity)
  end.

Ltac evalFloats :=
  repeat match goal with
         | |- context [realOfFloat ?f] => evalFloat f
         end.

(** ** Aggregator lemmas *)

Section Aggregator.

Variable f : Investment.t -> R.

Lemma fold_sum_shift (l : list Investment.t) (acc : R) :
  fold_left (fun sum inv => sum + f inv) l acc = acc + sigma f l.
Proof.
  revert acc; induction l as [|inv rest IH]; intros acc; simpl.
  - lra.
  - rewrite IH. lra.
Qed.

Lemma fold_sum_sigma (l : list Investment.t) :
  fold_left (fun sum inv => sum + f inv) l 0 = sigma f l.
Proof. rewrite fold_sum_shift. lra. Qed.

End Aggregator.

Lemma summary_total (l : list Investment.t) :
  PortfolioSummary.totalAmount (summary l) = sumAmounts l.
Proof. unfold summary, sumAmounts; simpl. apply fold_sum_sigma. Qed.

Lemma summary_yield_pos (l : list Investment.t) :
  0 < sumAmounts l ->
  PortfolioSummary.weightedAverageYield (summary l)
  = sumAmountYield l / sumAmounts l.
Proof.
  intros Hpos. unfold summary; simpl.
  rewrite (fold_sum_sigma Investment.amount).
  rewrite (fold_sum_sigma
             (fun inv => Investment.amount inv * Investment.annualYield inv)).
  fold (sumAmounts l). fold (sumAmountYield l).
  destruct (Rlt_dec 0 (sumAmounts l)) as [_|Hn]; [reflexivity|contradiction].
Qed.

Lemma summary_yield_nonpos (l : list Investment.t) :
  sumAmounts l <= 0 ->
  PortfolioSummary.weightedAverageYield (summary l) = 0.
Proof.
  intros Hle. unfold summary; simpl.
  rewrite (fold_sum_sigma Investment.amount). fold (sumAmounts l).
  destruct (Rlt_dec 0 (sumAmounts l)) as [Hp|_]; [lra|reflexivity].
Qed.

Lemma summary_monthly (l : list Investment.t) :
  PortfolioSummary.monthlyIncome (summary l)
  = PortfolioSummary.totalAmount (summary l)
    * (PortfolioSummary.weightedAverageYield (summary l) / 100) / 12.
Proof. reflexivity. Qed.

(** C1.  For every list of accounts, empty or not, [summary] returns a
    record whose [totalAmount] is the sum of the amounts, whose
    [weightedAverageYield] is [(Σ amount * yield) / totalAmount] when the
    total is positive and [0] when the total is [0], and whose
    [monthlyIncome] is [totalAmount * (weightedAverageYield / 100) / 12].
    [summary] is a total function: it returns this record on every list. *)
Theorem summary_invariant (investments : list Investment.t) :
  exists total yield monthly,
    summary investments = PortfolioSummary.mk total yield monthly /\
    total = sumAmounts investments /\
    (0 < total -> yield = sumAmountYield investments / total) /\
    (total = 0 -> yield = 0) /\
    monthly = total * (yield / 100) / 12.
Proof.
  exists (PortfolioSummary.totalAmount (summary investments)),
         (PortfolioSummary.weightedAverageYield (summary investments)),
         (PortfolioSummary.monthlyIncome (summary investments)).
  split; [reflexivity|].
  rewrite summary_total.
  split; [reflexivity|]. split; [|split].
  - intros Hpos. now apply summary_yield_pos.
  - intros Hz. apply summary_yield_nonpos. lra.
  - rewrite <- summary_total. apply summary_monthly.
Qed.

Lemma summary_invariant_witness :
  exists total yield monthly,
    summary [sampleAccount] = PortfolioSummary.mk total yield monthly /\
    total = sumAmounts [sampleAccount] /\
    (0 < total -> yield = sumAmountYield [sampleAccount] / total) /\
    (total = 0 -> yield = 0) /\
    monthly = total * (yield / 100) / 12.
Proof. exact (summary_invariant [sampleAccount]). Defined.

(** The weighted sum of yields is bounded by the bounds of the yields. *)

Lemma weighted_sum_bounds (lo hi : R) (l : list Investment.t) :
  nonNegativeAmounts l ->
  Forall (fun inv => lo <= Investment.annualYield inv <= hi) l ->
  lo * sumAmounts l <= sumAmountYield l <= hi * sumAmounts l.
Proof.
  unfold nonNegativeAmounts, sumAmounts, sumAmountYield.
  induction l as [|inv rest IH]; intros Hnn Hb; simpl.
  - lra.
  - inversion Hnn as [|? ? Ha Hnn']; subst.
    inversion Hb as [|? ? Hy Hb']; subst.
    specialize (IH Hnn' Hb'). nra.
Qed.

Lemma fold_min_le (rest : list Investment.t) (m : R) :
  let lo := fold_left (fun m i => Rmin m (Investment.annualYield i)) rest m in
  lo <= m /\ Forall (fun inv => lo <= Investment.annualYield inv) rest.
Proof.
  revert m; induction rest as [|inv rest IH]; intros m; simpl.
  - split; [lra | constructor].
  - destruct (IH (Rmin m (Investment.annualYield inv))) as [Hm Hall].
    pose proof (Rmin_l m (Investment.annualYield inv)).
    pose proof (Rmin_r m (Investment.annualYield inv)).
    split; [lra|]. constructor; [lra | exact Hall].
Qed.

Lemma fold_max_ge (rest : list Investment.t) (m : R) :
  let hi := fold_left (fun m i => Rmax m (Investment.annualYield i)) rest m in
  m <= hi /\ Forall (fun inv => Investment.annualYield inv <= hi) rest.
Proof.
  revert m; induction rest as [|inv rest IH]; intros m; simpl.
  - split; [lra | constructor].
  - destruct (IH (Rmax m (Investment.annualYield inv))) as [Hm Hall].
    pose proof (Rmax_l m (Investment.annualYield inv)).
    pose proof (Rmax_r m (Investment.annualYield inv)).
    split; [lra|]. constructor; [lra | exact Hall].
Qed.

(** On an account list whose total is zero the average returned is outside
    the range of the yields: the account [emptyAccount] holds no capital
    and yields 5, and the average returned is [0]. *)
Lemma yield_range_counterexample :
  nonNegativeAmounts [emptyAccount] /\ ~ yieldWithinRange [emptyAccount].
Proof.
  split.
  - constructor; [simpl; lra | constructor].
  - intros (lo & hi & Hlo & Hhi & Hb).
    simpl in Hlo, Hhi. injection Hlo as <-. injection Hhi as <-.
    rewrite summary_yield_nonpos in Hb.
    + lra.
    + unfold sumAmounts; simpl. lra.
Qed.

(** In exact arithmetic, for every account list in which all amounts are
    non-negative and whose total amount is positive, the weighted average
    yield lies between the minimum and the maximum of the individual
    yields. *)
Theorem yield_range_positive_total (l : list Investment.t) :
  nonNegativeAmounts l ->
  0 < PortfolioSummary.totalAmount (summary l) ->
  yieldWithinRange l.
Proof.
  intros Hnn Hpos. rewrite summary_total in Hpos.
  destruct l as [|inv rest].
  - unfold sumAmounts in Hpos; simpl in Hpos. lra.
  - unfold yieldWithinRange; simpl minYield; simpl maxYield.
    do 2 eexists. split; [reflexivity|]. split; [reflexivity|].
    pose proof (fold_min_le rest (Investment.annualYield inv)) as Hmin.
    pose proof (fold_max_ge rest (Investment.annualYield inv)) as Hmax.
    cbv zeta in Hmin, Hmax.
    set (lo := fold_left (fun m i => Rmin m _) rest _) in *.
    set (hi := fold_left (fun m i => Rmax m _) rest _) in *.
    destruct Hmin as [Hlo Hlos]. destruct Hmax as [Hhi His].
    assert (Hall : Forall (fun i => lo <= Investment.annualYield i <= hi)
                     (inv :: rest)).
    { constructor; [lra|].
      rewrite Forall_forall in *. intros i Hi.
      split; [apply Hlos | apply His]; exact Hi. }
    destruct (weighted_sum_bounds lo hi _ Hnn Hall) as [Hl Hh].
    rewrite summary_yield_pos by exact Hpos.
    set (T := sumAmounts (inv :: rest)) in *.
    set (S := sumAmountYield (inv :: rest)) in *.
    split.
    + apply Rmult_le_reg_r with T; [exact Hpos|].
      unfold Rdiv. rewrite Rmult_assoc, Rinv_l by lra. lra.
    + apply Rmult_le_reg_r with T; [exact Hpos|].
      unfold Rdiv. rewrite Rmult_assoc, Rinv_l by lra. lra.
Qed.

(** C9.  Whenever the total amount is zero or negative, the weighted
    average yield returned is [0]: the quotient is taken only under the
    guard [totalAmount > 0]. *)
Theorem nonpositive_total_zero_yield (l : list Investment.t) :
  PortfolioSummary.totalAmount (summary l) <= 0 ->
  PortfolioSummary.weightedAverageYield (summary l) = 0.
Proof.
  intros Hle. apply summary_yield_nonpos.
  rewrite <- summary_total. exact Hle.
Qed.

Lemma nonpositive_total_zero_yield_witness :
  PortfolioSummary.weightedAverageYield (summary [debtAccount]) = 0.
Proof.
  apply (nonpositive_total_zero_yield [debtAccount]).
  simpl. lra.
Defined.

(** ** The daily rate *)

Lemma Rpower_pos (x y : R) : 0 < Rpower x y.
Proof. unfold Rpower. apply exp_pos. Qed.

Lemma compoundDailyRate_base (y : R) :
  1 + compoundDailyRate y = Rpower (1 + y / 100) (1 / 365).
Proof. unfold compoundDailyRate. lra. Qed.

(** 365 daily periods at the converted rate give back the annual yield. *)

Lemma compoundDailyRate_annual (y : R) :
  -100 < y -> (1 + compoundDailyRate y) ^ 365 = 1 + y / 100.
Proof.
  intros Hy. rewrite compoundDailyRate_base.
  rewrite <- Rpower_pow by apply Rpower_pos.
  rewrite Rpower_mult.
  replace (1 / 365 * INR 365) with 1.
  - apply Rpower_1. lra.
  - rewrite INR_IZR_INZ. simpl Z.of_nat. field.
Qed.

Lemma compoundDailyRate_zero : compoundDailyRate 0 = 0.
Proof.
  unfold compoundDailyRate, Rpower.
  replace (1 + 0 / 100) with 1 by lra.
  rewrite ln_1, Rmult_0_r, exp_0. lra.
Qed.

Lemma compoundDailyRate_negative (y : R) :
  -100 < y -> y < 0 -> compoundDailyRate y < 0.
Proof.
  intros Hlo Hneg. unfold compoundDailyRate, Rpower.
  assert (Hln : ln (1 + y / 100) < 0).
  { rewrite <- ln_1. apply ln_increasing; lra. }
  assert (Hexp : exp (1 / 365 * ln (1 + y / 100)) < exp 0).
  { apply exp_increasing. nra. }
  rewrite exp_0 in Hexp. lra.
Qed.

Lemma dailyRate_pos (y : R) : 0 < y -> dailyRate y = compoundDailyRate y.
Proof.
  intros Hy. unfold dailyRate.
  destruct (Rlt_dec 0 y) as [_|Hn]; [reflexivity | contradiction].
Qed.

Lemma dailyRate_nonpos (y : R) : y <= 0 -> dailyRate y = 0.
Proof.
  intros Hy. unfold dailyRate.
  destruct (Rlt_dec 0 y) as [Hp|_]; [lra | reflexivity].
Qed.

Lemma losingAccount_yield :
  PortfolioSummary.weightedAverageYield (summary [losingAccount]) = -10.
Proof.
  rewrite summary_yield_pos.
  - unfold sumAmountYield, sumAmounts; simpl. field.
  - unfold sumAmounts; simpl. lra.
Qed.

(** C2, as stated, fails on a negative yield: for the account
    [losingAccount] (1000 at -10 percent) the average yield is -10, the
    rate of the loop is [0], and the formula gives a negative rate. *)
Lemma daily_rate_counterexample :
  let y := PortfolioSummary.weightedAverageYield (summary [losingAccount]) in
  y = -10 /\ dailyRate y = 0 /\ compoundDailyRate y < 0 /\
  dailyRate y <> compoundDailyRate y.
Proof.
  cbv zeta. rewrite losingAccount_yield.
  assert (Hr : dailyRate (-10) = 0) by (apply dailyRate_nonpos; lra).
  assert (Hc : compoundDailyRate (-10) < 0)
    by (apply compoundDailyRate_negative; lra).
  repeat split; try assumption. lra.
Qed.

(** C2, amended.  For every yield that is not negative the daily rate of
    the loop is [(1 + y/100)^(1/365) - 1], which is [0] at [y = 0] and
    whose 365th compound gives back [1 + y/100]; for every yield that is
    zero or negative the daily rate is [0], the conversion being guarded
    by [weightedAverageYield > 0].  The first revision of the projection
    applies the formula without the guard. *)
Theorem daily_rate_conversion (y : R) :
  (0 <= y -> dailyRate y = compoundDailyRate y) /\
  (0 <= y -> (1 + dailyRate y) ^ 365 = 1 + y / 100) /\
  (y <= 0 -> dailyRate y = 0) /\
  dailyRate_unguarded y = compoundDailyRate y /\
  dailyRate_unguarded 0 = 0.
Proof.
  assert (H0 : 0 <= y -> dailyRate y = compoundDailyRate y).
  { intros [Hpos|<-].
    - now apply dailyRate_pos.
    - rewrite compoundDailyRate_zero. apply dailyRate_nonpos. lra. }
  split; [exact H0|]. split; [|split; [|split]].
  - intros Hy. rewrite (H0 Hy). apply compoundDailyRate_annual. lra.
  - apply dailyRate_nonpos.
  - reflexivity.
  - exact compoundDailyRate_zero.
Qed.

Lemma daily_rate_conversion_witness :
  dailyRate 12 = compoundDailyRate 12 /\ (1 + dailyRate 12) ^ 365 = 1 + 12 / 100.
Proof.
  destruct (daily_rate_conversion 12) as (H1 & H2 & _).
  split; [apply H1 | apply H2]; clear; lra.
Defined.

(** Comparison of a power of a fraction with a fraction, on integers. *)

Lemma pow_ratio_lt (p q c d : Z) (n : nat) :
  (0 < q)%Z -> (0 < d)%Z ->
  (p ^ Z.of_nat n * d < c * q ^ Z.of_nat n)%Z ->
  (IZR p / IZR q) ^ n < IZR c / IZR d.
Proof.
  intros Hq Hd H. apply IZR_lt in H. rewrite !mult_IZR in H.
  assert (HQ : 0 < IZR (q ^ Z.of_nat n)).
  { apply IZR_lt. apply Z.pow_pos_nonneg; lia. }
  assert (HD : 0 < IZR d) by now apply IZR_lt.
  unfold Rdiv. rewrite Rpow_mult_distr, pow_inv, !pow_IZR.
  revert H HQ. generalize (IZR (p ^ Z.of_nat n)) (IZR (q ^ Z.of_nat n)).
  intros P Q H HQ.
  apply Rmult_lt_reg_r with (Q * IZR d); [nra|].
  replace (P * / Q * (Q * IZR d)) with (P * IZR d) by (field; lra).
  replace (IZR c * / IZR d * (Q * IZR d)) with (IZR c * Q) by (field; lra).
  exact H.
Qed.

Lemma pow_ratio_gt (p q c d : Z) (n : nat) :
  (0 < q)%Z -> (0 < d)%Z ->
  (c * q ^ Z.of_nat n < p ^ Z.of_nat n * d)%Z ->
  IZR c / IZR d < (IZR p / IZR q) ^ n.
Proof.
  intros Hq Hd H. apply IZR_lt in H. rewrite !mult_IZR in H.
  assert (HQ : 0 < IZR (q ^ Z.of_nat n)).
  { apply IZR_lt. apply Z.pow_pos_nonneg; lia. }
  assert (HD : 0 < IZR d) by now apply IZR_lt.
  unfold Rdiv. rewrite Rpow_mult_distr, pow_inv, !pow_IZR.
  revert H HQ. generalize (IZR (p ^ Z.of_nat n)) (IZR (q ^ Z.of_nat n)).
  intros P Q H HQ.
  apply Rmult_lt_reg_r with (Q * IZR d); [nra|].
  replace (P * / Q * (Q * IZR d)) with (P * IZR d) by (field; lra).
  replace (IZR c * / IZR d * (Q * IZR d)) with (IZR c * Q) by (field; lra).
  exact H.
Qed.

(** The daily rate of a 12 percent yield is 0.0003105 to seven places. *)

Lemma compoundDailyRate_12_bounds :
  3104 / 10000000 < compoundDailyRate 12 < 3106 / 10000000.
Proof.
  assert (Hx : (1 + compoundDailyRate 12) ^ 365 = 112 / 100).
  { rewrite compoundDailyRate_annual by lra. lra. }
  assert (Hpos : 0 < 1 + compoundDailyRate 12).
  { rewrite compoundDailyRate_base. apply Rpower_pos. }
  set (x := compoundDailyRate 12) in *.
  split.
  - destruct (Rle_or_lt x (3104 / 10000000)) as [Hle|Hlt]; [|exact Hlt].
    assert (Hp : (1 + x) ^ 365 <= (IZR 10003104 / IZR 10000000) ^ 365).
    { apply pow_incr. clear Hx. lra. }
    assert (Hlo : (IZR 10003104 / IZR 10000000) ^ 365 < IZR 112 / IZR 100).
    { apply pow_ratio_lt; [lia | lia | apply Z.ltb_lt; vm_compute; reflexivity]. }
    exfalso. rewrite Hx in Hp. clear Hx Hle Hpos.
    revert Hp Hlo. generalize ((IZR 10003104 / IZR 10000000) ^ 365).
    intros; lra.
  - destruct (Rle_or_lt (3106 / 10000000) x) as [Hle|Hlt]; [|exact Hlt].
    assert (Hp : (IZR 10003106 / IZR 10000000) ^ 365 <= (1 + x) ^ 365).
    { apply pow_incr. clear Hx. lra. }
    assert (Hhi : IZR 112 / IZR 100 < (IZR 10003106 / IZR 10000000) ^ 365).
    { apply pow_ratio_gt; [lia | lia | apply Z.ltb_lt; vm_compute; reflexivity]. }
    exfalso. rewrite Hx in Hp. clear Hx Hle Hpos.
    revert Hp Hhi. generalize ((IZR 10003106 / IZR 10000000) ^ 365).
    intros; lra.
Qed.

(** ** The calendar *)

Section Calendar.
Local Open Scope Z_scope.

Lemma daysInMonth_bounds (y m : Z) : 28 <= JsDate.daysInMonth y m <= 31.
Proof.
  unfold JsDate.daysInMonth.
  repeat match goal with
         | |- context [match ?x with _ => _ end] => destruct x
         end; lia.
Qed.

Lemma valid_iff (d : JsDate.t) :
  JsDate.valid d = true <->
  0 <= JsDate.getMonth d <= 11 /\
  1 <= JsDate.getDate d
    <= JsDate.daysInMonth (JsDate.getFullYear d) (JsDate.getMonth d) /\
  0 <= JsDate.msOfDay d < JsDate.msPerDay.
Proof.
  unfold JsDate.valid.
  rewrite !andb_true_iff, !Z.leb_le, Z.ltb_lt. tauto.
Qed.

Lemma nextDay_valid (d : JsDate.t) :
  JsDate.valid d = true -> JsDate.valid (JsDate.nextDay d) = true.
Proof.
  rewrite !valid_iff. intros (Hm & Hd & Hms). unfold JsDate.nextDay.
  destruct (Z.ltb_spec (JsDate.getDate d)
              (JsDate.daysInMonth (JsDate.getFullYear d) (JsDate.getMonth d)));
    [|destruct (Z.ltb_spec (JsDate.getMonth d) 11)]; simpl.
  - lia.
  - pose proof (daysInMonth_bounds (JsDate.getFullYear d)
                  (JsDate.getMonth d + 1)). lia.
  - pose proof (daysInMonth_bounds (JsDate.getFullYear d + 1) 0). lia.
Qed.

Lemma nextDay_year (d : JsDate.t) :
  JsDate.getFullYear d <= JsDate.getFullYear (JsDate.nextDay d).
Proof.
  unfold JsDate.nextDay.
  repeat match goal with
         | |- context [if ?b then _ else _] => destruct b
         end; simpl; lia.
Qed.

Lemma iter_nextDay_valid (n : nat) (d : JsDate.t) :
  JsDate.valid d = true ->
  JsDate.valid (Nat.iter n JsDate.nextDay d) = true /\
  JsDate.getFullYear d <= JsDate.getFullYear (Nat.iter n JsDate.nextDay d).
Proof.
  intros Hv. induction n as [|n [IHv IHy]]; simpl.
  - split; [exact Hv | lia].
  - split; [now apply nextDay_valid|].
    pose proof (nextDay_year (Nat.iter n JsDate.nextDay d)). lia.
Qed.

(** Within a month, stepping from the first reaches each day in turn. *)

Lemma iter_nextDay_in_month (y m ms : Z) (j : nat) :
  1 + Z.of_nat j <= JsDate.daysInMonth y m ->
  Nat.iter j JsDate.nextDay (JsDate.mk y m 1 ms)
  = JsDate.mk y m (1 + Z.of_nat j) ms.
Proof.
  induction j as [|j IH]; intros Hj.
  - reflexivity.
  - change (Nat.iter (S j) JsDate.nextDay ?x)
      with (JsDate.nextDay (Nat.iter j JsDate.nextDay x)).
    rewrite Nat2Z.inj_succ in *. rewrite IH by lia.
    unfold JsDate.nextDay.
    cbn [JsDate.getDate JsDate.getFullYear JsDate.getMonth JsDate.msOfDay].
    destruct (Z.ltb_spec (1 + Z.of_nat j) (JsDate.daysInMonth y m)); [|lia].
    f_equal. lia.
Qed.

(** [setDate] with the current day of the month plus [k] is the date [k]
    days later. *)

Lemma setDate_forward (d : JsDate.t) (k : Z) :
  JsDate.valid d = true -> 0 <= k ->
  JsDate.setDate d (JsDate.getDate d + k) = JsDate.addDays d k.
Proof.
  intros Hv Hk. pose proof Hv as Hv'. rewrite valid_iff in Hv'.
  destruct Hv' as (Hm & Hd & Hms).
  unfold JsDate.setDate, JsDate.makeDate, JsDate.addDays.
  rewrite (Z.div_small (JsDate.getMonth d) 12) by lia.
  rewrite (Z.mod_small (JsDate.getMonth d) 12) by lia.
  rewrite Z.add_0_r.
  destruct (Z.leb_spec 0 (JsDate.getDate d + k - 1)); [|lia].
  destruct (Z.leb_spec 0 k); [|lia].
  replace (Z.to_nat (JsDate.getDate d + k - 1))
    with (Z.to_nat k + Z.to_nat (JsDate.getDate d - 1))%nat by lia.
  rewrite Nat.iter_add. f_equal.
  rewrite iter_nextDay_in_month by lia.
  destruct d as [y m dd ms].
  cbn [JsDate.getDate JsDate.getFullYear JsDate.getMonth JsDate.msOfDay] in *.
  f_equal. lia.
Qed.

Lemma addDays_forward_valid (d : JsDate.t) (k : Z) :
  JsDate.valid d = true -> 0 <= k ->
  JsDate.valid (JsDate.addDays d k) = true /\
  JsDate.getFullYear d <= JsDate.getFullYear (JsDate.addDays d k).
Proof.
  intros Hv Hk. unfold JsDate.addDays.
  destruct (Z.leb_spec 0 k); [|lia].
  now apply iter_nextDay_valid.
Qed.

Lemma addDays_minus_one (d : JsDate.t) :
  JsDate.addDays d (0 - 1) = JsDate.prevDay d.
Proof. reflexivity. Qed.

(** [new Date (y, m + 1, 0)] is the last day of month [m] of year [y]. *)

Lemma newDate_day_zero (y m : Z) :
  100 <= y -> 0 <= m <= 11 ->
  JsDate.newDate y (m + 1) 0 = JsDate.mk y m (JsDate.daysInMonth y m) 0.
Proof.
  intros Hy Hm. unfold JsDate.newDate.
  destruct (Z.leb_spec 0 y); [|lia].
  destruct (Z.leb_spec y 99); [lia|]. simpl andb. cbv iota.
  assert (Hcases : m = 0 \/ m = 1 \/ m = 2 \/ m = 3 \/ m = 4 \/ m = 5 \/
                   m = 6 \/ m = 7 \/ m = 8 \/ m = 9 \/ m = 10 \/ m = 11)
    by lia.
  unfold JsDate.makeDate. rewrite addDays_minus_one.
  repeat (destruct Hcases as [->|Hcases]); try subst m;
    cbn; rewrite ?Z.add_0_r; try reflexivity;
    f_equal; lia.
Qed.

(** The day of the month is the last one exactly when the next day is the
    first of a month. *)

Lemma last_day_iff_next_first (d : JsDate.t) :
  JsDate.valid d = true ->
  JsDate.getDate d
  = JsDate.daysInMonth (JsDate.getFullYear d) (JsDate.getMonth d)
  <-> JsDate.getDate (JsDate.nextDay d) = 1.
Proof.
  rewrite valid_iff. intros (Hm & Hd & Hms). unfold JsDate.nextDay.
  destruct (Z.ltb_spec (JsDate.getDate d)
              (JsDate.daysInMonth (JsDate.getFullYear d) (JsDate.getMonth d)));
    [|destruct (Z.ltb_spec (JsDate.getMonth d) 11)]; simpl; lia.
Qed.

End Calendar.

(** ** The projection loop *)

Section ProjectorFacts.

Variable formatCurrency : R -> string.
Variable dateFormatter_format : JsDate.t -> string.
Variable getTimezoneOffset : JsDate.t -> Z.
Variable summary_ : PortfolioSummary.t.
Variable salary : R.
Variable extraIncomes : list AdditionalIncome.t.
Variable startDate : JsDate.t.

Local Abbreviation step :=
  (projectionStep formatCurrency dateFormatter_format getTimezoneOffset
     summary_ salary extraIncomes startDate).
Local Abbreviation loop :=
  (projectionLoop formatCurrency dateFormatter_format getTimezoneOffset
     summary_ salary extraIncomes startDate).
Local Abbreviation projection :=
  (dailyProjection formatCurrency dateFormatter_format getTimezoneOffset
     summary_ salary extraIncomes startDate).
Local Abbreviation record :=
  (dayRecord formatCurrency dateFormatter_format getTimezoneOffset
     summary_ salary extraIncomes startDate).
Local Abbreviation injections :=
  (dayInjections formatCurrency getTimezoneOffset salary extraIncomes).
Local Abbreviation currentDate := (currentDateOf startDate).
Local Abbreviation isoDate := (isoDateOf getTimezoneOffset).
Local Abbreviation hits := (fun iso => matchingExtras extraIncomes iso).
Local Abbreviation rate :=
  (dailyRate (PortfolioSummary.weightedAverageYield summary_)).

Lemma projectionStep_eq (c : R) (results : list ProjectionDay.t) (i : nat) :
  step (c, results) i
  = (ProjectionDay.total (record c i), results ++ [record c i]).
Proof.
  unfold projectionStep, dayRecord.
  destruct (injections (currentDate i)) as [incomeToday events].
  reflexivity.
Qed.

Lemma projectionLoop_S (n : nat) : loop (S n) = step (loop n) n.
Proof.
  unfold projectionLoop. rewrite seq_S, fold_left_app. reflexivity.
Qed.

Lemma dailyProjection_S (n : nat) :
  projection (S n) = projection n ++ [record (fst (loop n)) n].
Proof.
  unfold dailyProjection. rewrite projectionLoop_S.
  destruct (loop n) as [c results]. rewrite projectionStep_eq. reflexivity.
Qed.

Lemma capital_S (n : nat) :
  fst (loop (S n)) = ProjectionDay.total (record (fst (loop n)) n).
Proof.
  rewrite projectionLoop_S.
  destruct (loop n) as [c results]. rewrite projectionStep_eq. reflexivity.
Qed.

Lemma dailyProjection_length (n : nat) : List.length (projection n) = n.
Proof.
  induction n as [|n IH].
  - reflexivity.
  - rewrite dailyProjection_S, length_app, IH. simpl. lia.
Qed.

Lemma dailyProjection_nth (n i : nat) :
  (i < n)%nat ->
  nth_error (projection n) i = Some (record (fst (loop i)) i).
Proof.
  induction n as [|n IH]; intros Hi; [lia|].
  rewrite dailyProjection_S.
  destruct (Nat.eq_dec i n) as [->|Hne].
  - rewrite nth_error_app2 by (rewrite dailyProjection_length; lia).
    rewrite dailyProjection_length, Nat.sub_diag. reflexivity.
  - rewrite nth_error_app1 by (rewrite dailyProjection_length; lia).
    apply IH. lia.
Qed.

Lemma capital_totalBefore (n i : nat) :
  (i <= n)%nat ->
  fst (loop i) = totalBefore summary_ (projection n) i.
Proof.
  intros Hi. destruct i as [|j]; [reflexivity|].
  unfold totalBefore. rewrite dailyProjection_nth by lia.
  apply capital_S.
Qed.

Lemma dailyProjection_lookup (n i : nat) (r : ProjectionDay.t) :
  nth_error (projection n) i = Some r ->
  (i < n)%nat /\ r = record (totalBefore summary_ (projection n) i) i.
Proof.
  intros Hr.
  assert (Hi : (i < n)%nat).
  { rewrite <- (dailyProjection_length n). apply nth_error_Some.
    rewrite Hr. discriminate. }
  split; [exact Hi|].
  rewrite dailyProjection_nth in Hr by exact Hi.
  injection Hr as <-. rewrite (capital_totalBefore n) by lia. reflexivity.
Qed.

(** The [forEach] over the extra incomes selects the incomes of the day,
    in the order of the collection. *)

Lemma fold_injectExtra (iso : string) (l : list AdditionalIncome.t)
    (incomeToday : R) (events : list string) :
  fold_left (injectExtra formatCurrency iso) l (incomeToday, events)
  = (fold_left Rplus
       (map AdditionalIncome.amount (matchingExtras l iso)) incomeToday,
     events ++ map (extraLabel formatCurrency) (matchingExtras l iso)).
Proof.
  revert incomeToday events.
  induction l as [|extra rest IH]; intros incomeToday events; simpl.
  - rewrite app_nil_r. reflexivity.
  - destruct (String.eqb (AdditionalIncome.date extra) iso); simpl.
    + rewrite IH, <- app_assoc. reflexivity.
    + apply IH.
Qed.

Lemma dayInjections_eq (d : JsDate.t) :
  injections d
  = (fold_left Rplus (map AdditionalIncome.amount (hits (isoDate d)))
       (if salaryCondition d then 0 + salary else 0),
     (if salaryCondition d then [salaryLabel formatCurrency salary] else [])
     ++ map (extraLabel formatCurrency) (hits (isoDate d))).
Proof.
  unfold dayInjections.
  destruct (salaryCondition d); rewrite fold_injectExtra; reflexivity.
Qed.

(** On a valid date after the year 99 the test of the loop is the test on
    the table of month lengths. *)

Lemma salaryCondition_isSalaryDay (d : JsDate.t) :
  JsDate.valid d = true -> (100 <= JsDate.getFullYear d)%Z ->
  salaryCondition d = isSalaryDay d.
Proof.
  intros Hv Hy. apply valid_iff in Hv. destruct Hv as (Hm & _).
  unfold salaryCondition, isSalaryDay, monthDaysOf.
  rewrite newDate_day_zero by assumption. reflexivity.
Qed.

Lemma currentDate_addDays (i : nat) :
  JsDate.valid startDate = true ->
  currentDate i = JsDate.addDays startDate (Z.of_nat i + 1).
Proof.
  intros Hv. unfold currentDateOf.
  rewrite <- Z.add_assoc. apply setDate_forward; [exact Hv | lia].
Qed.

Lemma currentDate_valid (i : nat) :
  JsDate.valid startDate = true ->
  JsDate.valid (currentDate i) = true /\
  (JsDate.getFullYear startDate <= JsDate.getFullYear (currentDate i))%Z.
Proof.
  intros Hv. rewrite currentDate_addDays by exact Hv.
  apply addDays_forward_valid; [exact Hv | lia].
Qed.

Lemma isSalaryDay_iff (d : JsDate.t) :
  isSalaryDay d = true <->
  JsDate.getDate d = 15%Z \/
  JsDate.getDate d
  = JsDate.daysInMonth (JsDate.getFullYear d) (JsDate.getMonth d).
Proof.
  unfold isSalaryDay. rewrite orb_true_iff, !Z.eqb_eq. tauto.
Qed.

Lemma record_injections (n i : nat) (r : ProjectionDay.t) :
  nth_error (projection n) i = Some r ->
  ProjectionDay.income r
  = fold_left Rplus
      (map AdditionalIncome.amount (hits (isoDate (currentDate i))))
      (if salaryCondition (currentDate i) then 0 + salary else 0) /\
  ProjectionDay.events r
  = (if salaryCondition (currentDate i)
     then [salaryLabel formatCurrency salary] else [])
    ++ map (extraLabel formatCurrency) (hits (isoDate (currentDate i))).
Proof.
  intros Hr. apply dailyProjection_lookup in Hr. destruct Hr as [_ ->].
  unfold dayRecord; simpl. rewrite dayInjections_eq. split; reflexivity.
Qed.

Lemma dailyProjection_days (n : nat) :
  map ProjectionDay.day (projection n) = seq 1 n.
Proof.
  induction n as [|n IH].
  - reflexivity.
  - rewrite dailyProjection_S, map_app, IH, seq_S. simpl.
    rewrite Nat.add_1_r. reflexivity.
Qed.

(** C3.  On every day of the projection the income of the day (the salary,
    when it is due, plus the extra incomes of the day) is added to the
    running capital before the interest is computed: with [before] the
    starting capital on the first day and the total of the previous day
    afterwards, [earned = (before + income) * dailyRate] and
    [total = before + income + earned]. *)
Theorem injection_before_interest (n i : nat) (r : ProjectionDay.t) :
  nth_error (projection n) i = Some r ->
  exists before : R,
    match i with
    | O => before = PortfolioSummary.totalAmount summary_
    | S j => exists previous,
               nth_error (projection n) j = Some previous /\
               before = ProjectionDay.total previous
    end /\
    ProjectionDay.income r
    = fold_left Rplus
        (map AdditionalIncome.amount (hits (isoDate (currentDate i))))
        (if salaryCondition (currentDate i) then 0 + salary else 0) /\
    ProjectionDay.earned r = (before + ProjectionDay.income r) * rate /\
    ProjectionDay.total r
    = before + ProjectionDay.income r + ProjectionDay.earned r.
Proof.
  intros Hr. destruct (record_injections n i r Hr) as [Hinc _].
  destruct (dailyProjection_lookup n i r Hr) as [Hi Heq].
  exists (totalBefore summary_ (projection n) i).
  split; [|split; [exact Hinc|]].
  - destruct i as [|j]; [reflexivity|].
    exists (record (fst (loop j)) j).
    split; [apply dailyProjection_nth; lia|].
    unfold totalBefore. rewrite dailyProjection_nth by lia. reflexivity.
  - rewrite Heq. unfold dayRecord; simpl. split; reflexivity.
Qed.

(** C4.  On every projected calendar day (the start date plus [i + 1]
    days), the salary is added to the income of the day and its label is
    put first in the events exactly when the day of the month is 15 or the
    last day of its month, the last day being the day whose next day is the
    first of a month (the 28th, 29th or 30th in a shorter month); on any
    other day neither happens. *)
Theorem salary_on_15th_and_last_day (n i : nat) (r : ProjectionDay.t) :
  JsDate.valid startDate = true ->
  (100 <= JsDate.getFullYear startDate)%Z ->
  nth_error (projection n) i = Some r ->
  let d := JsDate.addDays startDate (Z.of_nat i + 1) in
  let extras := hits (isoDate d) in
  (isSalaryDay d = true <->
   JsDate.getDate d = 15%Z \/ JsDate.getDate (JsDate.nextDay d) = 1%Z) /\
  (JsDate.getDate d
   = JsDate.daysInMonth (JsDate.getFullYear d) (JsDate.getMonth d)
   <-> JsDate.getDate (JsDate.nextDay d) = 1%Z) /\
  (isSalaryDay d = true ->
   ProjectionDay.income r
   = fold_left Rplus (map AdditionalIncome.amount extras) (0 + salary) /\
   ProjectionDay.events r
   = salaryLabel formatCurrency salary
     :: map (extraLabel formatCurrency) extras) /\
  (isSalaryDay d = false ->
   ProjectionDay.income r
   = fold_left Rplus (map AdditionalIncome.amount extras) 0 /\
   ProjectionDay.events r = map (extraLabel formatCurrency) extras).
Proof.
  intros Hv Hy Hr d extras.
  destruct (record_injections n i r Hr) as [Hinc Hev].
  destruct (currentDate_valid i Hv) as [Hvd Hyd].
  rewrite salaryCondition_isSalaryDay in Hinc, Hev by (assumption || lia).
  rewrite currentDate_addDays in Hinc, Hev, Hvd by exact Hv.
  fold d in Hinc, Hev, Hvd. fold extras in Hinc, Hev.
  pose proof (last_day_iff_next_first d Hvd) as Hlast.
  split; [|split; [exact Hlast|split]].
  - rewrite isSalaryDay_iff. tauto.
  - intros Hs. rewrite Hs in Hinc, Hev. split; assumption.
  - intros Hs. rewrite Hs in Hinc, Hev. split; assumption.
Qed.

(** X22.  On every projected day, the extra incomes applied are exactly
    the incomes of the collection whose [date] string equals the date part
    of [toISOString] of the day (its UTC date); all of them apply, in the
    order of the collection, each one adding its amount to the income of
    the day and appending, after the salary label if there is one, a label
    made of its description (or ["Ingreso Extra"] when the description is
    empty) and its formatted amount. *)
Theorem extra_incomes_by_exact_date (n i : nat) (r : ProjectionDay.t) :
  nth_error (projection n) i = Some r ->
  let iso := isoDate (currentDate i) in
  let applied := hits iso in
  exists (salaryIncome : R) (salaryEvents : list string),
    (salaryIncome, salaryEvents)
    = (if salaryCondition (currentDate i)
       then (0 + salary, [salaryLabel formatCurrency salary])
       else (0, [])) /\
    (forall extra,
        In extra applied <->
        In extra extraIncomes /\ AdditionalIncome.date extra = iso) /\
    applied
    = filter (fun extra => String.eqb (AdditionalIncome.date extra) iso)
        extraIncomes /\
    ProjectionDay.income r
    = fold_left Rplus (map AdditionalIncome.amount applied) salaryIncome /\
    ProjectionDay.events r
    = salaryEvents ++ map (extraLabel formatCurrency) applied /\
    (forall extra,
        extraLabel formatCurrency extra
        = ((if string_dec (AdditionalIncome.description extra) ""
            then "Ingreso Extra" else AdditionalIncome.description extra)
           ++ ": +" ++ formatCurrency (AdditionalIncome.amount extra))%string).
Proof.
  intros Hr iso applied.
  destruct (record_injections n i r Hr) as [Hinc Hev].
  fold iso in Hinc, Hev. fold applied in Hinc, Hev.
  exists (if salaryCondition (currentDate i) then 0 + salary else 0),
         (if salaryCondition (currentDate i)
          then [salaryLabel formatCurrency salary] else []).
  split; [destruct (salaryCondition (currentDate i)); reflexivity|].
  split; [|split; [reflexivity|split; [exact Hinc|split; [exact Hev|]]]].
  - intros extra. unfold applied, matchingExtras.
    rewrite filter_In, String.eqb_eq. tauto.
  - intros extra. unfold extraLabel.
    destruct (String.eqb_spec (AdditionalIncome.description extra) "");
      destruct (string_dec (AdditionalIncome.description extra) "");
      congruence.
Qed.

(** C6.  For every horizon the projection is a list of exactly
    [projectionDays] records whose day indices are [1, 2, ...,
    projectionDays] in this order; for a zero horizon it is the empty
    list. *)
Theorem projection_length_and_days (projectionDays : nat) :
  let results :=
    dailyProjection formatCurrency dateFormatter_format getTimezoneOffset
      summary_ salary extraIncomes startDate projectionDays in
  List.length results = projectionDays /\
  map ProjectionDay.day results = seq 1 projectionDays /\
  (projectionDays = 0%nat -> results = []).
Proof.
  intros results. unfold results.
  split; [apply dailyProjection_length|].
  split; [apply dailyProjection_days | intros ->; reflexivity].
Qed.

(** C10.  On every projected day whose day of the month is 15 or the last
    day of its month, the salary label is the first event of the record,
    whatever the salary; with a salary of [0] and no extra income the
    record has this one event and an income of [0]. *)
Theorem salary_label_unconditional (n i : nat) (r : ProjectionDay.t) :
  JsDate.valid startDate = true ->
  (100 <= JsDate.getFullYear startDate)%Z ->
  nth_error (projection n) i = Some r ->
  let d := JsDate.addDays startDate (Z.of_nat i + 1) in
  JsDate.getDate d = 15%Z \/
  JsDate.getDate d
  = JsDate.daysInMonth (JsDate.getFullYear d) (JsDate.getMonth d) ->
  hd_error (ProjectionDay.events r) = Some (salaryLabel formatCurrency salary)
  /\ (salary = 0 -> extraIncomes = [] ->
      ProjectionDay.income r = 0 /\
      ProjectionDay.events r = [salaryLabel formatCurrency 0]).
Proof.
  intros Hv Hy Hr d Hd.
  destruct (record_injections n i r Hr) as [Hinc Hev].
  destruct (currentDate_valid i Hv) as [Hvd Hyd].
  rewrite salaryCondition_isSalaryDay in Hinc, Hev by (assumption || lia).
  rewrite currentDate_addDays in Hinc, Hev by exact Hv.
  fold d in Hinc, Hev.
  apply isSalaryDay_iff in Hd. rewrite Hd in Hinc, Hev.
  split.
  - rewrite Hev. reflexivity.
  - intros Hs He. rewrite Hinc, Hev. clear Hinc Hev.
    rewrite He, Hs. simpl. split; [lra | reflexivity].
Qed.

(** Without salary and extra incomes the capital compounds at the daily
    rate. *)

Lemma capital_compound (n : nat) :
  salary = 0 -> extraIncomes = [] ->
  fst (loop n) = PortfolioSummary.totalAmount summary_ * (1 + rate) ^ n.
Proof.
  intros Hs He. induction n as [|n IH].
  - simpl. unfold projectionLoop; simpl. lra.
  - rewrite capital_S, IH. unfold dayRecord; simpl ProjectionDay.total.
    rewrite dayInjections_eq. rewrite He, Hs. simpl fst.
    unfold matchingExtras; simpl.
    destruct (salaryCondition (currentDate n)); lra.
Qed.

Lemma final_total_compound (n : nat) :
  salary = 0 -> extraIncomes = [] ->
  exists r,
    nth_error (projection (S n)) n = Some r /\
    ProjectionDay.day r = S n /\
    ProjectionDay.total r
    = PortfolioSummary.totalAmount summary_ * (1 + rate) ^ (S n).
Proof.
  intros Hs He. exists (record (fst (loop n)) n).
  split; [apply dailyProjection_nth; lia|].
  split; [unfold dayRecord; simpl; lia|].
  rewrite <- capital_S. now apply capital_compound.
Qed.

End ProjectorFacts.

(** ** The scenarios *)

Lemma sampleAccount_summary :
  PortfolioSummary.totalAmount (summary [sampleAccount]) = 1000 /\
  PortfolioSummary.weightedAverageYield (summary [sampleAccount]) = 12.
Proof.
  split.
  - rewrite summary_total. unfold sumAmounts; simpl. lra.
  - rewrite summary_yield_pos.
    + unfold sumAmountYield, sumAmounts; simpl. field.
    + unfold sumAmounts; simpl. lra.
Qed.

(** C8.  For the single account of 1000 at 12 percent, without salary and
    extra incomes, whatever the start date: the daily rate is
    [(1.12)^(1/365) - 1], which is 0.0003105 to seven decimal places, and
    the record of day 365 has a total of exactly 1120. *)
Theorem scenario_one_year (formatCurrency : R -> string)
    (dateFormatter_format : JsDate.t -> string)
    (getTimezoneOffset : JsDate.t -> Z) (startDate : JsDate.t) :
  let s := summary [sampleAccount] in
  let rate := dailyRate (PortfolioSummary.weightedAverageYield s) in
  rate = Rpower (112 / 100) (1 / 365) - 1 /\
  3104 / 10000000 < rate < 3106 / 10000000 /\
  exists r,
    nth_error
      (dailyProjection formatCurrency dateFormatter_format getTimezoneOffset
         s 0 [] startDate 365) 364 = Some r /\
    ProjectionDay.day r = 365%nat /\
    ProjectionDay.total r = 1120.
Proof.
  intros s rate. destruct sampleAccount_summary as [Ht Hy].
  assert (Hrate : rate = compoundDailyRate 12).
  { unfold rate, s. rewrite Hy. apply dailyRate_pos. lra. }
  split; [|split].
  - rewrite Hrate. unfold compoundDailyRate.
    replace (1 + 12 / 100) with (112 / 100) by lra. reflexivity.
  - rewrite Hrate. exact compoundDailyRate_12_bounds.
  - destruct (final_total_compound formatCurrency dateFormatter_format
                getTimezoneOffset s 0 [] startDate 364 eq_refl eq_refl)
      as (r & Hr & Hd & Htot).
    exists r. split; [exact Hr|]. split; [exact Hd|].
    rewrite Htot. fold rate. rewrite Hrate.
    rewrite compoundDailyRate_annual by lra.
    unfold s. rewrite Ht. lra.
Qed.

(** ** The theorems at the sample inputs *)

Lemma injection_before_interest_witness :
  exists r previous,
    nth_error novemberProjection 1 = Some r /\
    nth_error novemberProjection 0 = Some previous /\
    ProjectionDay.total r
    = ProjectionDay.total previous
      + ProjectionDay.income r + ProjectionDay.earned r.
Proof.
  assert (Hr : {r | nth_error novemberProjection 1 = Some r})
    by (eexists; evalProjection; reflexivity).
  destruct Hr as [r Hr]. exists r.
  destruct (injection_before_interest plainCurrency plainDate mexicoCity
              (summary [sampleAccount]) 2000 sampleExtras novemberStart
              3 1 r Hr) as (before & (previous & Hp & Hb) & _ & _ & Ht).
  exists previous. split; [exact Hr|]. split; [exact Hp|].
  rewrite <- Hb. exact Ht.
Defined.

Lemma salary_on_15th_and_last_day_witness :
  exists r,
    nth_error februaryProjection 0 = Some r /\
    JsDate.addDays februaryStart 1 = JsDate.mk 2027 1 28 36000000 /\
    isSalaryDay (JsDate.addDays februaryStart 1) = true /\
    ProjectionDay.events r = [salaryLabel plainCurrency 0].
Proof.
  eexists. split; [evalProjection; reflexivity|].
  split; [reflexivity|]. split; [reflexivity|].
  match goal with
  | |- ProjectionDay.events ?r = _ =>
      assert (Hr : nth_error februaryProjection 0 = Some r)
        by (evalProjection; reflexivity)
  end.
  destruct (salary_on_15th_and_last_day plainCurrency plainDate mexicoCity
              (summary [sampleAccount]) 0 [] februaryStart 3 0 _
              eq_refl ltac:(simpl; lia) Hr) as (_ & _ & Hs & _).
  destruct (Hs eq_refl) as [_ Hev]. exact Hev.
Defined.

Lemma extra_incomes_by_exact_date_witness :
  exists r,
    nth_error novemberProjection 0 = Some r /\
    ProjectionDay.events r
    = ["Quincena: +$"; "Bono: +$"; "Ingreso Extra: +$"]%string.
Proof.
  eexists. split; [evalProjection; reflexivity|].
  match goal with
  | |- ProjectionDay.events ?r = _ =>
      assert (Hr : nth_error novemberProjection 0 = Some r)
        by (evalProjection; reflexivity)
  end.
  destruct (extra_incomes_by_exact_date plainCurrency plainDate mexicoCity
              (summary [sampleAccount]) 2000 sampleExtras novemberStart
              3 0 _ Hr)
    as (salaryIncome & salaryEvents & Hs & _ & _ & _ & Hev & _).
  evalProjectionIn Hs. injection Hs as _ ->. exact Hev.
Defined.

Lemma salary_label_unconditional_witness :
  exists r,
    nth_error februaryProjection 0 = Some r /\
    ProjectionDay.income r = 0 /\
    ProjectionDay.events r = ["Quincena: +$"%string].
Proof.
  eexists. split; [evalProjection; reflexivity|].
  match goal with
  | |- ProjectionDay.income ?r = _ /\ _ =>
      assert (Hr : nth_error februaryProjection 0 = Some r)
        by (evalProjection; reflexivity)
  end.
  destruct (salary_label_unconditional plainCurrency plainDate mexicoCity
              (summary [sampleAccount]) 0 [] februaryStart 3 0 _
              eq_refl ltac:(simpl; lia) Hr
              (or_intror eq_refl)) as [_ Hz].
  exact (Hz eq_refl eq_refl).
Defined.

(** ** The handlers of the state *)

Lemma map_update_absent {A : Type} (key : A -> string) (upd : A -> A)
    (id : string) (l : list A) :
  Forall (fun x => key x <> id) l ->
  map (fun x => if String.eqb (key x) id then upd x else x) l = l.
Proof.
  induction 1 as [|x rest Hx _ IH]; simpl.
  - reflexivity.
  - rewrite IH. destruct (String.eqb_spec (key x) id); congruence.
Qed.

Lemma filter_remove_absent {A : Type} (key : A -> string) (id : string)
    (l : list A) :
  Forall (fun x => key x <> id) l ->
  filter (fun x => negb (String.eqb (key x) id)) l = l.
Proof.
  induction 1 as [|x rest Hx _ IH]; simpl.
  - reflexivity.
  - rewrite IH. destruct (String.eqb_spec (key x) id); [contradiction|].
    reflexivity.
Qed.

Lemma not_in_ids {A : Type} (key : A -> string) (id : string) (l : list A) :
  ~ In id (map key l) -> Forall (fun x => key x <> id) l.
Proof.
  intros Hn. apply Forall_forall. intros x Hx Heq.
  apply Hn. rewrite <- Heq. now apply in_map.
Qed.

(** X1.  Updating a field under an id that no record carries changes
    nothing, for the investments and for the extra incomes alike. *)
Theorem update_absent_id (id : string) (prev : AppData.t)
    (fv : InvestmentField) (gv : AdditionalIncomeField) :
  (~ In id (map Investment.id (AppData.investments prev)) ->
   updateInvestment id fv prev = prev) /\
  (~ In id (map AdditionalIncome.id (AppData.extraIncomes prev)) ->
   updateExtraIncome id gv prev = prev).
Proof.
  destruct prev as [invs sal extras]. split; intros Hn.
  - unfold updateInvestment; simpl. f_equal.
    apply map_update_absent. now apply not_in_ids.
  - unfold updateExtraIncome; simpl. f_equal.
    apply map_update_absent. now apply not_in_ids.
Qed.

Lemma filter_remove_app_fresh {A : Type} (key : A -> string) (id : string)
    (l : list A) (x : A) :
  key x = id -> ~ In id (map key l) ->
  filter (fun y => negb (String.eqb (key y) id)) (l ++ [x]) = l.
Proof.
  intros Hx Hn. rewrite filter_app. simpl.
  rewrite Hx, String.eqb_refl. simpl. rewrite app_nil_r.
  apply filter_remove_absent. now apply not_in_ids.
Qed.

(** X4.  Adding a record under a fresh id and then deleting that id gives
    back the state as it was, for the investments and for the extra
    incomes. *)
Theorem add_then_delete (uuid : string) (prev : AppData.t)
    (getTimezoneOffset : JsDate.t -> Z) (now : JsDate.t) :
  (~ In uuid (map Investment.id (AppData.investments prev)) ->
   deleteInvestment uuid (addInvestment uuid prev) = prev) /\
  (~ In uuid (map AdditionalIncome.id (AppData.extraIncomes prev)) ->
   removeExtraIncome uuid (addExtraIncome uuid getTimezoneOffset now prev)
   = prev).
Proof.
  destruct prev as [invs sal extras]. split; intros Hn.
  - unfold deleteInvestment, addInvestment; simpl. f_equal.
    now apply filter_remove_app_fresh.
  - unfold removeExtraIncome, addExtraIncome; simpl. f_equal.
    now apply filter_remove_app_fresh.
Qed.

Lemma summary_app_empty (l : list Investment.t) (uuid name : string)
    (y : R) :
  summary (l ++ [Investment.mk uuid name 0 y]) = summary l.
Proof.
  unfold summary. rewrite !fold_left_app. simpl.
  rewrite Rmult_0_l, !Rplus_0_r. reflexivity.
Qed.

(** X5.  A new investment starts with amount and yield [0]: adding it
    leaves the summary, and with it the whole projection, unchanged. *)
Theorem add_investment_neutral (uuid : string) (prev : AppData.t)
    (formatCurrency : R -> string) (dateFormatter_format : JsDate.t -> string)
    (getTimezoneOffset : JsDate.t -> Z) (startDate : JsDate.t)
    (projectionDays : nat) :
  summaryOf (addInvestment uuid prev) = summaryOf prev /\
  projectionOf formatCurrency dateFormatter_format getTimezoneOffset
    startDate projectionDays (addInvestment uuid prev)
  = projectionOf formatCurrency dateFormatter_format getTimezoneOffset
      startDate projectionDays prev.
Proof.
  assert (Hs : summaryOf (addInvestment uuid prev) = summaryOf prev).
  { unfold summaryOf, addInvestment; simpl. apply summary_app_empty. }
  split; [exact Hs|].
  unfold projectionOf. rewrite Hs. reflexivity.
Qed.

(** ** More on the projection loop *)

Lemma dailyRate_nonneg (y : R) : 0 <= dailyRate y.
Proof.
  unfold dailyRate. destruct (Rlt_dec 0 y) as [Hy|_]; [|lra].
  unfold Rpower.
  assert (Hln : 0 < ln (1 + y / 100)).
  { rewrite <- ln_1. apply ln_increasing; lra. }
  assert (Hexp : exp 0 < exp (1 / 365 * ln (1 + y / 100))).
  { apply exp_increasing. nra. }
  rewrite exp_0 in Hexp. lra.
Qed.

Lemma fold_plus_nonneg (l : list R) (init : R) :
  0 <= init -> Forall (fun x => 0 <= x) l -> 0 <= fold_left Rplus l init.
Proof.
  intros Hi Hl. revert init Hi.
  induction Hl as [|x rest Hx _ IH]; intros init Hi; simpl.
  - exact Hi.
  - apply IH. lra.
Qed.

Section ProjectorExtras.

Variable formatCurrency : R -> string.
Variable dateFormatter_format : JsDate.t -> string.
Variable getTimezoneOffset : JsDate.t -> Z.
Variable summary_ : PortfolioSummary.t.
Variable salary : R.
Variable extraIncomes : list AdditionalIncome.t.
Variable startDate : JsDate.t.

Local Abbreviation loop :=
  (projectionLoop formatCurrency dateFormatter_format getTimezoneOffset
     summary_ salary extraIncomes startDate).
Local Abbreviation projection :=
  (dailyProjection formatCurrency dateFormatter_format getTimezoneOffset
     summary_ salary extraIncomes startDate).
Local Abbreviation record :=
  (dayRecord formatCurrency dateFormatter_format getTimezoneOffset
     summary_ salary extraIncomes startDate).
Local Abbreviation injections :=
  (dayInjections formatCurrency getTimezoneOffset salary extraIncomes).
Local Abbreviation currentDate := (currentDateOf startDate).
Local Abbreviation rate :=
  (dailyRate (PortfolioSummary.weightedAverageYield summary_)).
Local Abbreviation start := (PortfolioSummary.totalAmount summary_).

(** X6.  A longer horizon only appends days: the projection over [n] days
    is the first [n] records of the projection over any [m >= n] days. *)
Theorem projection_prefix (n m : nat) :
  (n <= m)%nat ->
  firstn n
    (dailyProjection formatCurrency dateFormatter_format getTimezoneOffset
       summary_ salary extraIncomes startDate m)
  = dailyProjection formatCurrency dateFormatter_format getTimezoneOffset
      summary_ salary extraIncomes startDate n.
Proof.
  induction 1 as [|m Hle IH].
  - rewrite <- (dailyProjection_length formatCurrency dateFormatter_format
                  getTimezoneOffset summary_ salary extraIncomes startDate n)
      at 1.
    apply firstn_all.
  - rewrite dailyProjection_S, firstn_app, dailyProjection_length.
    replace (n - m)%nat with 0%nat by lia.
    rewrite IH. simpl. apply app_nil_r.
Qed.

(** X8.  When the average yield is zero or negative the daily rate is [0]:
    every day earns [0] and its total is the total before plus the income
    of the day. *)
Theorem zero_rate_flat (n i : nat) (r : ProjectionDay.t) :
  PortfolioSummary.weightedAverageYield summary_ <= 0 ->
  nth_error
    (dailyProjection formatCurrency dateFormatter_format getTimezoneOffset
       summary_ salary extraIncomes startDate n) i = Some r ->
  ProjectionDay.earned r = 0 /\
  ProjectionDay.total r
  = totalBefore summary_
      (dailyProjection formatCurrency dateFormatter_format getTimezoneOffset
         summary_ salary extraIncomes startDate n) i
    + ProjectionDay.income r.
Proof.
  intros Hy Hr. apply dailyProjection_lookup in Hr. destruct Hr as [_ ->].
  unfold dayRecord.
  cbn [ProjectionDay.total ProjectionDay.income ProjectionDay.earned].
  rewrite (dailyRate_nonpos _ Hy). split; lra.
Qed.

Lemma injections_nonneg (d : JsDate.t) :
  0 <= salary ->
  Forall (fun extra => 0 <= AdditionalIncome.amount extra) extraIncomes ->
  0 <= fst (injections d).
Proof.
  intros Hs He. rewrite dayInjections_eq. cbn [fst].
  apply fold_plus_nonneg.
  - destruct (salaryCondition d); lra.
  - apply Forall_map. unfold matchingExtras.
    apply Forall_forall. intros extra Hin. apply filter_In in Hin.
    rewrite Forall_forall in He. apply He. tauto.
Qed.

Lemma capital_nondecreasing (n : nat) :
  0 <= start -> 0 <= salary ->
  Forall (fun extra => 0 <= AdditionalIncome.amount extra) extraIncomes ->
  0 <= fst (loop n) /\ fst (loop n) <= fst (loop (S n)).
Proof.
  intros H0 Hs He.
  assert (Hstep : forall k, 0 <= fst (loop k) ->
                            fst (loop k) <= fst (loop (S k))).
  { intros k Hk. rewrite capital_S. unfold dayRecord.
    cbn [ProjectionDay.total].
    pose proof (injections_nonneg (currentDate k) Hs He) as Hi.
    pose proof (dailyRate_nonneg
                  (PortfolioSummary.weightedAverageYield summary_)) as Hr.
    nra. }
  assert (Hpos : forall k, 0 <= fst (loop k)).
  { induction k as [|k IH]; [exact H0|].
    specialize (Hstep k IH). lra. }
  split; [apply Hpos | apply Hstep, Hpos].
Qed.

(** X9.  With a starting capital, a salary and extra incomes that are not
    negative, no day of the projection has a negative income or a negative
    interest, and the total never falls below the total before it. *)
Theorem projection_never_decreases (n i : nat) (r : ProjectionDay.t) :
  0 <= PortfolioSummary.totalAmount summary_ -> 0 <= salary ->
  Forall (fun extra => 0 <= AdditionalIncome.amount extra) extraIncomes ->
  nth_error
    (dailyProjection formatCurrency dateFormatter_format getTimezoneOffset
       summary_ salary extraIncomes startDate n) i = Some r ->
  0 <= ProjectionDay.income r /\ 0 <= ProjectionDay.earned r /\
  totalBefore summary_
    (dailyProjection formatCurrency dateFormatter_format getTimezoneOffset
       summary_ salary extraIncomes startDate n) i
  <= ProjectionDay.total r.
Proof.
  intros H0 Hs He Hr.
  destruct (dailyProjection_lookup formatCurrency dateFormatter_format
              getTimezoneOffset summary_ salary extraIncomes startDate
              n i r Hr) as [Hi Heq].
  rewrite <- (capital_totalBefore formatCurrency dateFormatter_format
                getTimezoneOffset summary_ salary extraIncomes startDate n i)
    in * by lia.
  destruct (capital_nondecreasing i H0 Hs He) as [Hc _].
  pose proof (injections_nonneg (currentDate i) Hs He) as Hinc.
  pose proof (dailyRate_nonneg
                (PortfolioSummary.weightedAverageYield summary_)) as Hrate.
  rewrite Heq. unfold dayRecord.
  cbn [ProjectionDay.total ProjectionDay.income ProjectionDay.earned].
  repeat split; nra.
Qed.

(** X10.  From a valid start date the projected dates are valid calendar
    dates that follow one another day by day, across the ends of months and
    years: the first is the day after the start date and each next one is
    the day after the one before. *)
Theorem projected_dates_consecutive (i : nat) :
  JsDate.valid startDate = true ->
  currentDateOf startDate 0 = JsDate.nextDay startDate /\
  currentDateOf startDate (S i) = JsDate.nextDay (currentDateOf startDate i) /\
  JsDate.valid (currentDateOf startDate i) = true.
Proof.
  intros Hv.
  rewrite !(currentDate_addDays startDate) by exact Hv.
  split; [reflexivity|]. split.
  - unfold JsDate.addDays.
    destruct (Z.leb_spec 0 (Z.of_nat (S i) + 1)); [|lia].
    destruct (Z.leb_spec 0 (Z.of_nat i + 1)); [|lia].
    replace (Z.to_nat (Z.of_nat (S i) + 1))
      with (S (Z.to_nat (Z.of_nat i + 1))) by lia.
    reflexivity.
  - apply addDays_forward_valid; [exact Hv | lia].
Qed.

End ProjectorExtras.

(** ** A new extra income *)

Section NewExtraIncome.

Variable formatCurrency : R -> string.
Variable dateFormatter_format : JsDate.t -> string.
Variable getTimezoneOffset : JsDate.t -> Z.
Variable summary_ : PortfolioSummary.t.
Variable salary : R.
Variable extraIncomes : list AdditionalIncome.t.
Variable startDate : JsDate.t.
Variable newIncome : AdditionalIncome.t.
Hypothesis newIncome_amount : AdditionalIncome.amount newIncome = 0.

Lemma injections_new_income (d : JsDate.t) :
  fst (dayInjections formatCurrency getTimezoneOffset salary
         (extraIncomes ++ [newIncome]) d)
  = fst (dayInjections formatCurrency getTimezoneOffset salary
           extraIncomes d).
Proof.
  rewrite !dayInjections_eq. cbn [fst].
  unfold matchingExtras. rewrite filter_app, map_app, fold_left_app.
  simpl filter.
  destruct (String.eqb (AdditionalIncome.date newIncome)
              (isoDateOf getTimezoneOffset d)); simpl.
  - rewrite newIncome_amount. lra.
  - reflexivity.
Qed.

Lemma capital_new_income (n : nat) :
  fst (projectionLoop formatCurrency dateFormatter_format getTimezoneOffset
         summary_ salary (extraIncomes ++ [newIncome]) startDate n)
  = fst (projectionLoop formatCurrency dateFormatter_format getTimezoneOffset
           summary_ salary extraIncomes startDate n).
Proof.
  induction n as [|n IH].
  - reflexivity.
  - rewrite !capital_S. unfold dayRecord. cbn [ProjectionDay.total].
    rewrite IH, injections_new_income. reflexivity.
Qed.

Lemma figures_new_income (n : nat) :
  map (fun r => (ProjectionDay.day r, ProjectionDay.date r,
                 ProjectionDay.earned r, ProjectionDay.income r,
                 ProjectionDay.total r))
    (dailyProjection formatCurrency dateFormatter_format getTimezoneOffset
       summary_ salary (extraIncomes ++ [newIncome]) startDate n)
  = map (fun r => (ProjectionDay.day r, ProjectionDay.date r,
                   ProjectionDay.earned r, ProjectionDay.income r,
                   ProjectionDay.total r))
      (dailyProjection formatCurrency dateFormatter_format getTimezoneOffset
         summary_ salary extraIncomes startDate n).
Proof.
  induction n as [|n IH].
  - reflexivity.
  - rewrite !dailyProjection_S, !map_app, IH. f_equal.
    unfold dayRecord. simpl map.
    rewrite capital_new_income, injections_new_income. reflexivity.
Qed.

End NewExtraIncome.

(** X11.  A new extra income starts with amount [0]: adding it leaves the
    day, the date, the interest, the income and the total of every day of
    the projection unchanged. *)
Theorem add_extra_income_neutral (uuid : string) (now : JsDate.t)
    (prev : AppData.t) (formatCurrency : R -> string)
    (dateFormatter_format : JsDate.t -> string)
    (getTimezoneOffset : JsDate.t -> Z) (startDate : JsDate.t)
    (projectionDays : nat) :
  let figures := fun r : ProjectionDay.t =>
    (ProjectionDay.day r, ProjectionDay.date r, ProjectionDay.earned r,
     ProjectionDay.income r, ProjectionDay.total r) in
  map figures
    (projectionOf formatCurrency dateFormatter_format getTimezoneOffset
       startDate projectionDays
       (addExtraIncome uuid getTimezoneOffset now prev))
  = map figures
      (projectionOf formatCurrency dateFormatter_format getTimezoneOffset
         startDate projectionDays prev).
Proof.
  intros figures. unfold figures, projectionOf, addExtraIncome, summaryOf.
  cbn [AppData.investments AppData.salary AppData.extraIncomes].
  apply figures_new_income. reflexivity.
Qed.

(** ** Salary days of a month *)

Lemma salaryCondition_table (d : JsDate.t) :
  (100 <= JsDate.getFullYear d)%Z -> (0 <= JsDate.getMonth d <= 11)%Z ->
  salaryCondition d = isSalaryDay d.
Proof.
  intros Hy Hm. unfold salaryCondition, isSalaryDay, monthDaysOf.
  rewrite newDate_day_zero by assumption. reflexivity.
Qed.

(** X12.  In every month of every year from 100 on, the test of the loop
    holds on exactly two days, the 15th and the last day of the month, so
    that a calendar month receives the salary twice. *)
Theorem two_salary_days_per_month (y m ms : Z) :
  (100 <= y)%Z -> (0 <= m <= 11)%Z ->
  filter salaryCondition (daysOfMonth y m ms)
  = [JsDate.mk y m 15 ms; JsDate.mk y m (JsDate.daysInMonth y m) ms].
Proof.
  intros Hy Hm.
  rewrite (filter_ext_in salaryCondition
             (fun d => (JsDate.getDate d =? 15)%Z
                       || (JsDate.getDate d =? JsDate.daysInMonth y m)%Z)).
  - pose proof (daysInMonth_bounds y m) as Hb.
    unfold daysOfMonth.
    set (last := JsDate.daysInMonth y m) in *. clearbody last.
    assert (Hcases : (last = 28 \/ last = 29 \/ last = 30 \/ last = 31)%Z)
      by lia.
    destruct Hcases as [ -> | [ -> | [ -> | -> ] ] ]; reflexivity.
  - intros d Hd. unfold daysOfMonth in Hd. apply in_map_iff in Hd.
    destruct Hd as (k & <- & _).
    rewrite salaryCondition_table by assumption. reflexivity.
Qed.

Lemma two_salary_days_per_month_witness :
  filter salaryCondition (daysOfMonth 2027 1 0)
  = [JsDate.mk 2027 1 15 0; JsDate.mk 2027 1 28 0].
Proof. apply (two_salary_days_per_month 2027 1 0); lia. Defined.

(** ** The first revision of the projection *)

Section FirstRevisionFacts.

Variable dateFormatter_format : JsDate.t -> string.
Variable summary_ : PortfolioSummary.t.
Variable startDate : JsDate.t.

Local Abbreviation loop1 :=
  (FirstRevision.projectionLoop dateFormatter_format summary_ startDate).
Local Abbreviation projection1 :=
  (FirstRevision.dailyProjection dateFormatter_format summary_ startDate).
Local Abbreviation rate1 :=
  (dailyRate_unguarded (PortfolioSummary.weightedAverageYield summary_)).
Local Abbreviation start := (PortfolioSummary.totalAmount summary_).

Local Abbreviation firstRecord :=
  (FirstRevision.dayRecord dateFormatter_format summary_ startDate).

Lemma first_loop_S (n : nat) :
  loop1 (S n)
  = (FirstRevision.total (firstRecord (fst (loop1 n)) n),
     snd (loop1 n) ++ [firstRecord (fst (loop1 n)) n]).
Proof.
  unfold FirstRevision.projectionLoop. rewrite seq_S, fold_left_app.
  simpl fold_left at 1.
  destruct (fold_left _ (seq 0 n) _) as [c data]. reflexivity.
Qed.

Lemma first_projection_S (n : nat) :
  projection1 (S n) = projection1 n ++ [firstRecord (fst (loop1 n)) n].
Proof.
  unfold FirstRevision.dailyProjection. rewrite first_loop_S. reflexivity.
Qed.

Lemma first_capital (n : nat) : fst (loop1 n) = start * (1 + rate1) ^ n.
Proof.
  induction n as [|n IH].
  - unfold FirstRevision.projectionLoop; simpl. lra.
  - rewrite first_loop_S. cbn [fst]. unfold FirstRevision.dayRecord.
    cbn [FirstRevision.total]. rewrite IH. simpl pow. lra.
Qed.

Lemma first_projection_length (n : nat) : List.length (projection1 n) = n.
Proof.
  induction n as [|n IH].
  - reflexivity.
  - rewrite first_projection_S, length_app, IH. simpl. lia.
Qed.

Lemma first_projection_nth (n i : nat) :
  (i < n)%nat ->
  nth_error (projection1 n) i = Some (firstRecord (fst (loop1 i)) i).
Proof.
  induction n as [|n IH]; intros Hi; [lia|].
  rewrite first_projection_S.
  destruct (Nat.eq_dec i n) as [->|Hne].
  - rewrite nth_error_app2 by (rewrite first_projection_length; lia).
    rewrite first_projection_length, Nat.sub_diag. reflexivity.
  - rewrite nth_error_app1 by (rewrite first_projection_length; lia).
    apply IH. lia.
Qed.

(** X14.  For an average yield above -100, the first revision adds each
    day the interest of the capital before it and nothing else: its
    projection has one record per day, and record [i] (counted from 0)
    carries the day [i + 1], the interest [before * dailyRate] and the
    total [before + earned], where [before] is the starting capital on
    the first day and the total of the previous record afterwards. *)
Theorem first_revision_daily_interest (n i : nat)
    (d : FirstRevision.ProjectionDay) :
  -100 < PortfolioSummary.weightedAverageYield summary_ ->
  nth_error
    (FirstRevision.dailyProjection dateFormatter_format summary_ startDate n)
    i = Some d ->
  List.length
    (FirstRevision.dailyProjection dateFormatter_format summary_ startDate n)
  = n /\
  FirstRevision.day d = (i + 1)%nat /\
  exists before : R,
    match i with
    | O => before = PortfolioSummary.totalAmount summary_
    | S j => exists previous,
               nth_error
                 (FirstRevision.dailyProjection dateFormatter_format
                    summary_ startDate n) j = Some previous /\
               before = FirstRevision.total previous
    end /\
    FirstRevision.earned d
    = before * dailyRate_unguarded
                 (PortfolioSummary.weightedAverageYield summary_) /\
    FirstRevision.total d = before + FirstRevision.earned d.
Proof.
  intros _ Hd.
  assert (Hi : (i < n)%nat).
  { rewrite <- (first_projection_length n). apply nth_error_Some.
    rewrite Hd. discriminate. }
  rewrite first_projection_nth in Hd by exact Hi. injection Hd as <-.
  split; [apply first_projection_length|]. split; [reflexivity|].
  exists (fst (loop1 i)). split; [|split; reflexivity].
  destruct i as [|j]; [reflexivity|].
  exists (firstRecord (fst (loop1 j)) j).
  split; [apply first_projection_nth; lia|].
  rewrite first_loop_S. reflexivity.
Qed.

Variable formatCurrency : R -> string.
Variable getTimezoneOffset : JsDate.t -> Z.

Lemma injections_none (d : JsDate.t) :
  fst (dayInjections formatCurrency getTimezoneOffset 0 [] d) = 0.
Proof.
  rewrite dayInjections_eq. cbn [fst]. unfold matchingExtras; simpl.
  destruct (salaryCondition d); lra.
Qed.

Lemma dailyRate_guard_agrees (y : R) :
  0 <= y -> dailyRate y = dailyRate_unguarded y.
Proof.
  intros [Hpos|<-].
  - now apply dailyRate_pos.
  - change (dailyRate_unguarded 0) with (compoundDailyRate 0).
    rewrite compoundDailyRate_zero. apply dailyRate_nonpos. lra.
Qed.

(** X15.  For an average yield that is not negative, the projection with a
    salary of [0] and no extra income gives, day by day, the same day
    number, date, interest and total as the first revision. *)
Theorem revisions_agree (n : nat) :
  0 <= PortfolioSummary.weightedAverageYield summary_ ->
  map (fun r => (ProjectionDay.day r, ProjectionDay.date r,
                 ProjectionDay.earned r, ProjectionDay.total r))
    (dailyProjection formatCurrency dateFormatter_format getTimezoneOffset
       summary_ 0 [] startDate n)
  = map (fun d => (FirstRevision.day d, FirstRevision.date d,
                   FirstRevision.earned d, FirstRevision.total d))
      (FirstRevision.dailyProjection dateFormatter_format summary_
         startDate n).
Proof.
  intros Hy.
  assert (Hcap : forall k,
             fst (projectionLoop formatCurrency dateFormatter_format
                    getTimezoneOffset summary_ 0 [] startDate k)
             = fst (loop1 k)).
  { intros k. rewrite capital_compound by reflexivity.
    rewrite first_capital, dailyRate_guard_agrees by exact Hy. reflexivity. }
  induction n as [|n IH].
  - reflexivity.
  - rewrite dailyProjection_S, first_projection_S, !map_app, IH. f_equal.
    unfold dayRecord, FirstRevision.dayRecord, currentDateOf. simpl map.
    rewrite injections_none, Hcap, dailyRate_guard_agrees by exact Hy.
    rewrite !Rplus_0_r. reflexivity.
Qed.

End FirstRevisionFacts.

(** ** The distribution chart *)

(** X17.  Every index has a colour; the first seven indices have seven
    different colours, and the colours repeat with period seven. *)
Theorem colors_cycle (index : nat) :
  (exists c, colorOf index = Some c) /\
  colorOf (index + 7) = colorOf index /\
  (forall other, (index < 7)%nat -> (other < 7)%nat ->
     colorOf index = colorOf other -> index = other).
Proof.
  split; [|split].
  - unfold colorOf.
    destruct (nth_error COLORS (index mod List.length COLORS)) eqn:Hc.
    + eexists; reflexivity.
    + apply nth_error_None in Hc.
      pose proof (Nat.mod_upper_bound index (List.length COLORS)) as Hb.
      simpl in Hb, Hc. lia.
  - unfold colorOf. change (List.length COLORS) with 7%nat.
    replace (index + 7)%nat with (index + 1 * 7)%nat by lia.
    rewrite Nat.Div0.mod_add. reflexivity.
  - intros other Hi Ho. unfold colorOf. change (List.length COLORS) with 7%nat.
    rewrite !Nat.mod_small by assumption.
    do 7 (destruct index as [|index]; [
      do 7 (destruct other as [|other];
            [first [reflexivity | discriminate]|]); lia |]).
    lia.
Qed.

(** ** The further theorems at the sample inputs *)

Lemma update_absent_id_witness :
  updateInvestment "9" (InvAmount 5) sampleData = sampleData /\
  updateExtraIncome "9" (IncAmount 5) sampleData = sampleData.
Proof.
  destruct (update_absent_id "9" sampleData (InvAmount 5) (IncAmount 5))
    as [Hi He].
  split; [apply Hi | apply He]; simpl; intuition discriminate.
Defined.

Lemma add_then_delete_witness :
  deleteInvestment "9" (addInvestment "9" sampleData) = sampleData /\
  removeExtraIncome "9" (addExtraIncome "9" mexicoCity novemberStart sampleData)
  = sampleData.
Proof.
  destruct (add_then_delete "9" sampleData mexicoCity novemberStart)
    as [Hi He].
  split; [apply Hi | apply He]; simpl; intuition discriminate.
Defined.

Lemma projection_prefix_witness :
  firstn 2 novemberProjection
  = dailyProjection plainCurrency plainDate mexicoCity
      (summary [sampleAccount]) 2000 sampleExtras novemberStart 2.
Proof.
  apply (projection_prefix plainCurrency plainDate mexicoCity
           (summary [sampleAccount]) 2000 sampleExtras novemberStart 2 3).
  lia.
Defined.

Lemma debtAccount_yield :
  PortfolioSummary.weightedAverageYield (summary [debtAccount]) <= 0.
Proof.
  rewrite summary_yield_nonpos; [lra|].
  unfold sumAmounts; simpl. lra.
Qed.

Lemma zero_rate_flat_witness :
  exists r, nth_error debtProjection 0 = Some r /\ ProjectionDay.earned r = 0.
Proof.
  assert (Hr : {r | nth_error debtProjection 0 = Some r})
    by (eexists; evalProjection; reflexivity).
  destruct Hr as [r Hr]. exists r. split; [exact Hr|].
  apply (zero_rate_flat plainCurrency plainDate mexicoCity
           (summary [debtAccount]) 2000 sampleExtras novemberStart
           3 0 r debtAccount_yield Hr).
Defined.

Lemma sampleExtras_nonneg :
  Forall (fun extra => 0 <= AdditionalIncome.amount extra) sampleExtras.
Proof. repeat constructor; simpl; lra. Qed.

Lemma projection_never_decreases_witness :
  exists r,
    nth_error novemberProjection 0 = Some r /\
    0 <= ProjectionDay.income r /\ 0 <= ProjectionDay.earned r.
Proof.
  assert (Hr : {r | nth_error novemberProjection 0 = Some r})
    by (eexists; evalProjection; reflexivity).
  destruct Hr as [r Hr]. exists r. split; [exact Hr|].
  assert (H0 : 0 <= PortfolioSummary.totalAmount (summary [sampleAccount]))
    by (rewrite (proj1 sampleAccount_summary); lra).
  assert (Hs : 0 <= 2000) by lra.
  destruct (projection_never_decreases plainCurrency plainDate mexicoCity
              (summary [sampleAccount]) 2000 sampleExtras novemberStart
              3 0 r H0 Hs sampleExtras_nonneg Hr) as (Hi & He & _).
  split; assumption.
Defined.

Lemma projected_dates_consecutive_witness :
  currentDateOf novemberStart 0 = JsDate.mk 2026 10 15 36000000 /\
  currentDateOf novemberStart 1
  = JsDate.nextDay (currentDateOf novemberStart 0).
Proof.
  destruct (projected_dates_consecutive novemberStart 0 eq_refl)
    as (_ & Hnext & _).
  split; [reflexivity | exact Hnext].
Defined.

Lemma revisions_agree_witness :
  map (fun r => (ProjectionDay.day r, ProjectionDay.date r,
                 ProjectionDay.earned r, ProjectionDay.total r))
    (dailyProjection plainCurrency plainDate mexicoCity
       (summary [sampleAccount]) 0 [] novemberStart 3)
  = map (fun d => (FirstRevision.day d, FirstRevision.date d,
                   FirstRevision.earned d, FirstRevision.total d))
      (FirstRevision.dailyProjection plainDate (summary [sampleAccount])
         novemberStart 3).
Proof.
  apply revisions_agree.
  rewrite (proj2 sampleAccount_summary). lra.
Defined.



(** ** Days without events *)

Section EmptyEvents.

Variable formatCurrency : R -> string.
Variable dateFormatter_format : JsDate.t -> string.
Variable getTimezoneOffset : JsDate.t -> Z.
Variable summary_ : PortfolioSummary.t.
Variable salary : R.
Variable extraIncomes : list AdditionalIncome.t.
Variable startDate : JsDate.t.

(** X21.  A day of the projection has no event exactly when the salary
    test fails on its date and no extra income carries its ISO date; its
    income is then [0], and it never has more events than one plus the
    number of extra incomes. *)
Theorem no_event_days (n i : nat) (r : ProjectionDay.t) :
  nth_error
    (dailyProjection formatCurrency dateFormatter_format getTimezoneOffset
       summary_ salary extraIncomes startDate n) i = Some r ->
  let d := currentDateOf startDate i in
  (ProjectionDay.events r = [] <->
   salaryCondition d = false /\
   forall extra, In extra extraIncomes ->
     AdditionalIncome.date extra <> isoDateOf getTimezoneOffset d) /\
  (ProjectionDay.events r = [] -> ProjectionDay.income r = 0) /\
  (List.length (ProjectionDay.events r) <= 1 + List.length extraIncomes)%nat.
Proof.
  intros Hr d.
  destruct (record_injections formatCurrency dateFormatter_format
              getTimezoneOffset summary_ salary extraIncomes startDate
              n i r Hr) as [Hinc Hev].
  fold d in Hinc, Hev.
  set (hits := matchingExtras extraIncomes (isoDateOf getTimezoneOffset d))
    in *.
  assert (Hhits : hits = [] <->
                  forall extra, In extra extraIncomes ->
                    AdditionalIncome.date extra
                    <> isoDateOf getTimezoneOffset d).
  { unfold hits, matchingExtras. split.
    - intros Hnil extra Hin Heq.
      assert (Hf : In extra
                     (filter (fun e => String.eqb (AdditionalIncome.date e)
                                         (isoDateOf getTimezoneOffset d))
                        extraIncomes)).
      { apply filter_In. split; [exact Hin|]. now apply String.eqb_eq. }
      rewrite Hnil in Hf. contradiction.
    - intros Hall.
      destruct (filter _ extraIncomes) as [|e rest] eqn:Hf; [reflexivity|].
      assert (He : In e (e :: rest)) by now left.
      rewrite <- Hf in He. apply filter_In in He. destruct He as [Hin Hb].
      apply String.eqb_eq in Hb. exfalso. exact (Hall e Hin Hb). }
  assert (Hempty : ProjectionDay.events r = [] <->
                   salaryCondition d = false /\ hits = []).
  { rewrite Hev. destruct (salaryCondition d); simpl.
    - split; [discriminate | intros [Hf _]; discriminate].
    - split.
      + intros Hm. split; [reflexivity|].
        destruct hits; [reflexivity | discriminate].
      + intros [_ ->]. reflexivity. }
  split; [|split].
  - rewrite Hempty, Hhits. tauto.
  - intros He. apply Hempty in He. destruct He as [Hs Hh].
    rewrite Hinc, Hs, Hh. reflexivity.
  - rewrite Hev, length_app, length_map.
    assert (Hle : (List.length hits <= List.length extraIncomes)%nat).
    { unfold hits, matchingExtras. apply filter_length_le. }
    destruct (salaryCondition d); simpl; lia.
Qed.

End EmptyEvents.

Lemma no_event_days_witness :
  exists r,
    nth_error novemberProjection 2 = Some r /\
    ProjectionDay.events r = [] /\ ProjectionDay.income r = 0.
Proof.
  eexists. split; [evalProjection; reflexivity|].
  match goal with
  | |- ProjectionDay.events ?r = _ /\ _ =>
      assert (Hr : nth_error novemberProjection 2 = Some r)
        by (evalProjection; reflexivity)
  end.
  destruct (no_event_days plainCurrency plainDate mexicoCity
              (summary [sampleAccount]) 2000 sampleExtras novemberStart
              3 2 _ Hr) as (_ & Hinc & _).
  split; [reflexivity | apply Hinc; reflexivity].
Defined.

(** ** Rounding *)

Lemma unitRoundoff_bounds : 0 < unitRoundoff < 1.
Proof.
  unfold unitRoundoff.
  assert (H2 : 2 <= 2 ^ 53).
  { replace 2 with (2 ^ 1) at 1 by lra. apply Rle_pow; [lra | lia]. }
  split.
  - apply Rinv_0_lt_compat. lra.
  - rewrite <- Rinv_1. apply Rinv_lt_contravar; lra.
Qed.

Lemma Rabs_bounds (x b : R) : Rabs x <= b -> - b <= x <= b.
Proof. unfold Rabs. destruct (Rcase_abs x); lra. Qed.

Lemma Rabs_product_le (x y X Y : R) :
  Rabs x <= X -> Rabs y <= Y -> Rabs (x * y) <= X * Y.
Proof.
  intros Hx Hy. rewrite Rabs_mult.
  apply Rmult_le_compat; try apply Rabs_pos; assumption.
Qed.

Lemma rounded_exact (x : R) : rounded x x.
Proof.
  exists 0. split; [|ring].
  rewrite Rabs_R0. pose proof unitRoundoff_bounds. lra.
Qed.

Lemma pow_one_minus (n : nat) :
  0 < (1 - unitRoundoff) ^ n <= 1.
Proof.
  pose proof unitRoundoff_bounds as Hu. split.
  - apply pow_lt. lra.
  - apply Rle_trans with (1 ^ n); [apply pow_incr; lra|].
    rewrite pow1. lra.
Qed.

Lemma pow_one_plus (n : nat) : 1 <= (1 + unitRoundoff) ^ n.
Proof. pose proof unitRoundoff_bounds. apply pow_R1_Rle. lra. Qed.

Lemma sumAmounts_nonneg (l : list Investment.t) :
  nonNegativeAmounts l -> 0 <= sumAmounts l.
Proof.
  unfold nonNegativeAmounts, sumAmounts.
  induction 1 as [|inv rest Hinv _ IH]; simpl; lra.
Qed.

(** The rounded total of non-negative amounts. *)

Lemma total_rounded_bounds (acc : R) (l : list Investment.t) (total : R) :
  reduceRounded (fun inv t => t = Investment.amount inv) acc l total ->
  0 <= acc -> nonNegativeAmounts l ->
  (acc + sumAmounts l) * (1 - unitRoundoff) ^ List.length l <= total
  /\ total <= (acc + sumAmounts l) * (1 + unitRoundoff) ^ List.length l.
Proof.
  pose proof unitRoundoff_bounds as Hu.
  induction 1 as [acc|acc inv rest t sum result Ht Hsum _ IH];
    intros Hacc Hnn.
  - unfold sumAmounts; simpl. lra.
  - subst t. inversion Hnn as [|? ? Ha Hrest]; subst.
    destruct Hsum as (d & Hd & ->). apply Rabs_bounds in Hd.
    pose proof (sumAmounts_nonneg rest Hrest) as Hr.
    assert (Hs : 0 <= (acc + Investment.amount inv) * (1 + d)) by nra.
    destruct (IH Hs Hrest) as [Hlo Hhi].
    pose proof (pow_one_minus (List.length rest)) as [Hp _].
    pose proof (pow_one_plus (List.length rest)) as Hq.
    unfold sumAmounts in *. cbn [sigma List.length pow].
    set (a := Investment.amount inv) in *.
    set (r := sigma Investment.amount rest) in *.
    set (p := (1 - unitRoundoff) ^ List.length rest) in *.
    set (q := (1 + unitRoundoff) ^ List.length rest) in *.
    split.
    + apply Rle_trans with (((acc + a) * (1 + d) + r) * p); [|exact Hlo].
      replace ((acc + (a + r)) * ((1 - unitRoundoff) * p))
        with (((acc + a + r) * (1 - unitRoundoff)) * p) by ring.
      apply Rmult_le_compat_r; [lra|]. nra.
    + apply Rle_trans with (((acc + a) * (1 + d) + r) * q); [exact Hhi|].
      replace ((acc + (a + r)) * ((1 + unitRoundoff) * q))
        with (((acc + a + r) * (1 + unitRoundoff)) * q) by ring.
      apply Rmult_le_compat_r; [lra|]. nra.
Qed.

Lemma sumAbs_nonneg (l : list Investment.t) :
  nonNegativeAmounts l -> 0 <= sumAbsAmountYield l.
Proof.
  unfold nonNegativeAmounts, sumAbsAmountYield.
  induction 1 as [|inv rest Hinv _ IH]; simpl; [lra|].
  pose proof (Rabs_pos (Investment.annualYield inv)). nra.
Qed.

Lemma sumAmountYield_abs (l : list Investment.t) :
  nonNegativeAmounts l -> Rabs (sumAmountYield l) <= sumAbsAmountYield l.
Proof.
  unfold nonNegativeAmounts, sumAmountYield, sumAbsAmountYield.
  induction 1 as [|inv rest Hinv _ IH]; simpl.
  - rewrite Rabs_R0. lra.
  - eapply Rle_trans; [apply Rabs_triang|].
    rewrite Rabs_mult, (Rabs_pos_eq _ Hinv). lra.
Qed.

Lemma sumAbs_le (M : R) (l : list Investment.t) :
  nonNegativeAmounts l ->
  Forall (fun inv => Rabs (Investment.annualYield inv) <= M) l ->
  sumAbsAmountYield l <= M * sumAmounts l.
Proof.
  unfold nonNegativeAmounts, sumAbsAmountYield, sumAmounts.
  induction l as [|inv rest IH]; intros Hnn HM; simpl.
  - lra.
  - inversion Hnn as [|? ? Ha Hnn']; subst.
    inversion HM as [|? ? Hy HM']; subst.
    specialize (IH Hnn' HM'). nra.
Qed.

(** One step of the weighted sum: the error of the accumulator grows by a
    factor [1 + unitRoundoff]. *)

Lemma weighted_step_error (theta acc s b a y t sum : R) :
  unitRoundoff <= theta -> 0 <= a ->
  Rabs (acc - s) <= theta * b -> Rabs s <= b ->
  rounded (a * y) t -> rounded (acc + t) sum ->
  Rabs (sum - (s + a * y))
  <= ((1 + theta) * (1 + unitRoundoff) - 1) * (b + a * Rabs y).
Proof.
  pose proof unitRoundoff_bounds as Hu.
  intros Hth Ha Hacc Hs (e & He & ->) (d & Hd & ->).
  set (u := unitRoundoff) in *.
  set (c := a * Rabs y).
  assert (Hc : Rabs (a * y) <= c).
  { unfold c. rewrite Rabs_mult, (Rabs_pos_eq _ Ha). lra. }
  assert (Hb : 0 <= b) by (pose proof (Rabs_pos s); lra).
  assert (Hc0 : 0 <= c) by (pose proof (Rabs_pos (a * y)); lra).
  replace ((acc + a * y * (1 + e)) * (1 + d) - (s + a * y))
    with ((acc - s) * (1 + d) + (s * d + (a * y) * (e + d + e * d))) by ring.
  assert (H1 : Rabs ((acc - s) * (1 + d)) <= (theta * b) * (1 + u)).
  { apply Rabs_product_le; [exact Hacc|].
    apply Rabs_le. apply Rabs_bounds in Hd. lra. }
  assert (H2 : Rabs (s * d) <= b * u) by now apply Rabs_product_le.
  assert (H3 : Rabs ((a * y) * (e + d + e * d)) <= c * (2 * u + u * u)).
  { apply Rabs_product_le; [exact Hc|].
    apply Rabs_le. apply Rabs_bounds in Hd. apply Rabs_bounds in He. nra. }
  eapply Rle_trans; [apply Rabs_triang|].
  eapply Rle_trans.
  { apply Rplus_le_compat; [exact H1|].
    eapply Rle_trans; [apply Rabs_triang|].
    apply Rplus_le_compat; [exact H2 | exact H3]. }
  fold c.
  assert (Hk : 0 <= c * (theta - u) * (1 + u)).
  { apply Rmult_le_pos; [apply Rmult_le_pos|]; lra. }
  lra.
Qed.

Lemma weighted_rounded_error (acc : R) (l : list Investment.t) (result : R) :
  reduceRounded
    (fun inv t =>
       rounded (Investment.amount inv * Investment.annualYield inv) t)
    acc l result ->
  forall theta s b,
    unitRoundoff <= theta -> nonNegativeAmounts l ->
    Rabs (acc - s) <= theta * b -> Rabs s <= b ->
    Rabs (result - (s + sumAmountYield l))
    <= ((1 + theta) * (1 + unitRoundoff) ^ List.length l - 1)
       * (b + sumAbsAmountYield l).
Proof.
  pose proof unitRoundoff_bounds as Hu.
  induction 1 as [acc|acc inv rest t sum result Ht Hsum _ IH];
    intros theta s b Hth Hnn Hacc Hs.
  - unfold sumAmountYield, sumAbsAmountYield; simpl.
    replace (acc - (s + 0)) with (acc - s) by ring.
    replace (((1 + theta) * 1 - 1) * (b + 0)) with (theta * b) by ring.
    exact Hacc.
  - inversion Hnn as [|? ? Ha Hrest]; subst.
    set (a := Investment.amount inv) in *.
    set (y := Investment.annualYield inv) in *.
    pose proof (weighted_step_error theta acc s b a y t sum
                  Hth Ha Hacc Hs Ht Hsum) as Hstep.
    assert (Hs' : Rabs (s + a * y) <= b + a * Rabs y).
    { eapply Rle_trans; [apply Rabs_triang|].
      rewrite Rabs_mult, (Rabs_pos_eq _ Ha). lra. }
    assert (Hth' : unitRoundoff <= (1 + theta) * (1 + unitRoundoff) - 1)
      by nra.
    specialize (IH _ _ _ Hth' Hrest Hstep Hs').
    unfold sumAmountYield, sumAbsAmountYield in *.
    cbn [sigma List.length pow]. fold a y.
    replace (s + (a * y + sigma (fun inv0 => Investment.amount inv0
                                  * Investment.annualYield inv0) rest))
      with (s + a * y + sigma (fun inv0 => Investment.amount inv0
                                 * Investment.annualYield inv0) rest) by ring.
    replace ((1 + theta) * ((1 + unitRoundoff)
                            * (1 + unitRoundoff) ^ List.length rest))
      with ((1 + ((1 + theta) * (1 + unitRoundoff) - 1))
            * (1 + unitRoundoff) ^ List.length rest) by ring.
    replace (b + (a * Rabs y
                  + sigma (fun inv0 => Investment.amount inv0
                             * Rabs (Investment.annualYield inv0)) rest))
      with (b + a * Rabs y
            + sigma (fun inv0 => Investment.amount inv0
                       * Rabs (Investment.annualYield inv0)) rest) by ring.
    exact IH.
Qed.

Lemma yields_within_min_max (l : list Investment.t) (lo hi : R) :
  minYield l = Some lo -> maxYield l = Some hi ->
  Forall (fun inv => lo <= Investment.annualYield inv <= hi) l.
Proof.
  destruct l as [|inv rest]; [discriminate|].
  simpl. intros Hlo Hhi. injection Hlo as <-. injection Hhi as <-.
  pose proof (fold_min_le rest (Investment.annualYield inv)) as Hmin.
  pose proof (fold_max_ge rest (Investment.annualYield inv)) as Hmax.
  cbv zeta in Hmin, Hmax.
  set (lo := fold_left (fun m i => Rmin m _) rest _) in *.
  set (hi := fold_left (fun m i => Rmax m _) rest _) in *.
  destruct Hmin as [Hlo Hlos]. destruct Hmax as [Hhi His].
  constructor; [lra|].
  rewrite Forall_forall in *. intros i Hi.
  split; [apply Hlos | apply His]; exact Hi.
Qed.

Lemma yields_abs_bound (l : list Investment.t) (lo hi : R) :
  Forall (fun inv => lo <= Investment.annualYield inv <= hi) l ->
  Forall (fun inv => Rabs (Investment.annualYield inv)
                     <= Rmax (Rabs lo) (Rabs hi)) l.
Proof.
  intros H. rewrite Forall_forall in *. intros inv Hin.
  specialize (H inv Hin).
  pose proof (Rmax_l (Rabs lo) (Rabs hi)).
  pose proof (Rmax_r (Rabs lo) (Rabs hi)).
  apply Rabs_le. unfold Rabs in *.
  destruct (Rcase_abs lo), (Rcase_abs hi); lra.
Qed.

Lemma roundingSlack_eq (n : nat) :
  roundingSlack n * (1 - unitRoundoff) ^ n
  = (1 + unitRoundoff) ^ n * ((1 + unitRoundoff) * (1 + unitRoundoff))
    + (1 + unitRoundoff) ^ n - (1 - unitRoundoff) ^ n - 1.
Proof.
  unfold roundingSlack. rewrite pow_add.
  pose proof (pow_one_minus n) as [Hp _].
  simpl pow at 2. field. lra.
Qed.

Lemma roundingSlack_nonneg (n : nat) : 0 <= roundingSlack n.
Proof.
  pose proof unitRoundoff_bounds as Hu.
  pose proof (pow_one_minus n) as [Hp Hp1].
  pose proof (pow_one_plus n) as Hq.
  pose proof (roundingSlack_eq n) as He.
  set (e := roundingSlack n) in *.
  set (p := (1 - unitRoundoff) ^ n) in *.
  set (q := (1 + unitRoundoff) ^ n) in *.
  assert (Hep : 0 <= e * p) by (rewrite He; nra).
  destruct (Rle_or_lt 0 e) as [H|H]; [exact H|]. nra.
Qed.

(** C7, amended.  For every account list in which all amounts are
    non-negative, and every summary with a positive total that lines 75-80
    can return when each operation is rounded with a relative error of at
    most [2^-53], the weighted average yield lies between the minimum and
    the maximum of the individual yields up to a slack: the largest absolute
    value of the two, times [roundingSlack] of the number of accounts. *)
Theorem yield_range_up_to_rounding (l : list Investment.t)
    (s : PortfolioSummary.t) (lo hi : R) :
  summaryRounded l s -> nonNegativeAmounts l ->
  0 < PortfolioSummary.totalAmount s ->
  minYield l = Some lo -> maxYield l = Some hi ->
  let slack :=
    roundingSlack (List.length l) * Rmax (Rabs lo) (Rabs hi) in
  lo - slack <= PortfolioSummary.weightedAverageYield s <= hi + slack.
Proof.
  intros (S' & percent & product & Htot & Hws & Hway & _) Hnn Hpos Hlo Hhi.
  pose proof unitRoundoff_bounds as Hu.
  destruct (Rlt_dec 0 (PortfolioSummary.totalAmount s)) as [_|Hn];
    [|contradiction].
  destruct Hway as (d & Hd & Hw). apply Rabs_bounds in Hd.
  set (That := PortfolioSummary.totalAmount s) in *.
  set (w := PortfolioSummary.weightedAverageYield s) in *.
  set (n := List.length l).
  pose proof (yields_within_min_max l lo hi Hlo Hhi) as Hrange.
  pose proof (yields_abs_bound l lo hi Hrange) as Habs.
  set (M := Rmax (Rabs lo) (Rabs hi)) in *.
  assert (HM : 0 <= M).
  { pose proof (Rmax_l (Rabs lo) (Rabs hi)). pose proof (Rabs_pos lo).
    unfold M. lra. }
  (* the total *)
  assert (H00 : 0 <= 0) by lra.
  destruct (total_rounded_bounds 0 l That Htot H00 Hnn) as [HT1 HT2].
  rewrite Rplus_0_l in HT1, HT2.
  pose proof (sumAmounts_nonneg l Hnn) as HT0.
  (* the weighted sum *)
  assert (Hz : Rabs (0 - 0) <= unitRoundoff * 0).
  { replace (0 - 0) with 0 by ring. rewrite Rabs_R0. lra. }
  assert (Hz' : Rabs 0 <= 0) by (rewrite Rabs_R0; lra).
  assert (Huu : unitRoundoff <= unitRoundoff) by lra.
  pose proof (weighted_rounded_error 0 l S' Hws _ _ _ Huu Hnn Hz Hz') as HS.
  rewrite !Rplus_0_l in HS. apply Rabs_bounds in HS.
  pose proof (sumAmountYield_abs l Hnn) as HSA. apply Rabs_bounds in HSA.
  pose proof (sumAbs_le M l Hnn Habs) as HA.
  pose proof (sumAbs_nonneg l Hnn) as HA0.
  destruct (weighted_sum_bounds lo hi l Hnn Hrange) as [HSlo HShi].
  pose proof (pow_one_minus n) as [Hp Hp1].
  pose proof (pow_one_plus n) as Hq.
  pose proof (roundingSlack_eq n) as He.
  pose proof (roundingSlack_nonneg n) as He0.
  fold n in HT1, HT2, HS.
  set (T := sumAmounts l) in *.
  set (S := sumAmountYield l) in *.
  set (A := sumAbsAmountYield l) in *.
  set (p := (1 - unitRoundoff) ^ n) in *.
  set (q := (1 + unitRoundoff) ^ n) in *.
  set (u := unitRoundoff) in *.
  set (e := roundingSlack n) in *.
  assert (HTpos : 0 < T) by nra.
  (* the quotient *)
  assert (HwT : w * That = S' * (1 + d)).
  { rewrite Hw. field. lra. }
  set (N := q * ((1 + u) * (1 + u)) + q - p - 1) in *.
  assert (HN : 0 <= N) by (unfold N; nra).
  (* |S' (1 + d) T - S That| <= M T^2 N *)
  assert (HE : - (((1 + u) * q - 1) * (1 + u) * (M * T))
               <= (S' - S) * (1 + d)
               <= ((1 + u) * q - 1) * (1 + u) * (M * T)).
  { assert (Hth : 0 <= (1 + u) * q - 1) by nra.
    assert (HE1 : - (((1 + u) * q - 1) * (M * T)) <= S' - S
                  <= ((1 + u) * q - 1) * (M * T)) by nra.
    set (X := ((1 + u) * q - 1) * (M * T)) in *.
    assert (HX : 0 <= X) by (unfold X; nra).
    replace (((1 + u) * q - 1) * (1 + u) * (M * T)) with (X * (1 + u))
      by (unfold X; ring).
    nra. }
  assert (HK : - (T * (q - p + u)) <= (1 + d) * T - That
               <= T * (q - p + u)) by nra.
  assert (HSK : - (M * T * (T * (q - p + u)))
                <= S * ((1 + d) * T - That)
                <= M * T * (T * (q - p + u))).
  { assert (HS2 : - (M * T) <= S <= M * T) by lra.
    set (Y := T * (q - p + u)) in *.
    assert (HY : 0 <= Y) by (unfold Y; nra).
    set (Z := (1 + d) * T - That) in *.
    set (MT := M * T) in *.
    assert (HMT : 0 <= MT) by (unfold MT; nra).
    clear - HS2 HK HY HMT. nra. }
  assert (HD : - (M * T * T * N) <= S' * (1 + d) * T - S * That
               <= M * T * T * N).
  { replace (S' * (1 + d) * T - S * That)
      with ((S' - S) * (1 + d) * T + S * ((1 + d) * T - That)) by ring.
    replace (M * T * T * N)
      with (((1 + u) * q - 1) * (1 + u) * (M * T) * T
            + M * T * (T * (q - p + u))) by (unfold N; ring).
    assert (HET : - (((1 + u) * q - 1) * (1 + u) * (M * T) * T)
                  <= (S' - S) * (1 + d) * T
                  <= ((1 + u) * q - 1) * (1 + u) * (M * T) * T).
    { set (X := ((1 + u) * q - 1) * (1 + u) * (M * T)) in *.
      set (V := (S' - S) * (1 + d)) in *.
      clear - HE HTpos. nra. }
    lra. }
  assert (HeM : M * T * T * N <= e * M * (That * T)).
  { rewrite <- He. fold p.
    assert (Hx : 0 <= e * M * T) by
      (apply Rmult_le_pos; [apply Rmult_le_pos|]; lra).
    replace (M * T * T * (e * p)) with (e * M * T * (T * p)) by ring.
    replace (e * M * (That * T)) with (e * M * T * That) by ring.
    apply Rmult_le_compat_l; [exact Hx | lra]. }
  assert (HTT : 0 < That * T) by (apply Rmult_lt_0_compat; lra).
  assert (Hlow : lo * (That * T) <= S * That) by nra.
  assert (Hhigh : S * That <= hi * (That * T)) by nra.
  cbv zeta. fold n e M.
  split.
  - apply Rmult_le_reg_r with (That * T); [exact HTT|].
    replace (w * (That * T)) with (S' * (1 + d) * T)
      by (rewrite <- HwT; ring).
    replace ((lo - e * M) * (That * T))
      with (lo * (That * T) - e * M * (That * T)) by ring.
    lra.
  - apply Rmult_le_reg_r with (That * T); [exact HTT|].
    replace (w * (That * T)) with (S' * (1 + d) * T)
      by (rewrite <- HwT; ring).
    replace ((hi + e * M) * (That * T))
      with (hi * (That * T) + e * M * (That * T)) by ring.
    lra.
Qed.

(** The slack is small: a few units in the last place per account. *)

Lemma pow_one_plus_le (n : nat) :
  2 * INR n * unitRoundoff <= 1 ->
  (1 + unitRoundoff) ^ n <= 1 + 2 * INR n * unitRoundoff.
Proof.
  pose proof unitRoundoff_bounds as Hu.
  induction n as [|n IH]; intros Hn.
  - simpl. lra.
  - rewrite S_INR in *. pose proof (pos_INR n) as Hpos.
    assert (Hn' : 2 * INR n * unitRoundoff <= 1) by nra.
    specialize (IH Hn'). simpl pow.
    apply Rle_trans
      with ((1 + unitRoundoff) * (1 + 2 * INR n * unitRoundoff)).
    + apply Rmult_le_compat_l; lra.
    + nra.
Qed.

Lemma pow_one_minus_ge (n : nat) :
  1 - INR n * unitRoundoff <= (1 - unitRoundoff) ^ n.
Proof.
  pose proof unitRoundoff_bounds as Hu.
  induction n as [|n IH].
  - simpl. lra.
  - rewrite S_INR. pose proof (pos_INR n) as Hpos. simpl pow.
    apply Rle_trans
      with ((1 - unitRoundoff) * (1 - INR n * unitRoundoff)).
    + nra.
    + apply Rmult_le_compat_l; lra.
Qed.

Lemma roundingSlack_small (n : nat) :
  (Z.of_nat n <= 1000000)%Z ->
  roundingSlack n <= (10 * INR n + 8) * unitRoundoff.
Proof.
  intros Hn. pose proof unitRoundoff_bounds as Hu.
  assert (Hmillion : 4000008 * unitRoundoff <= 1).
  { unfold unitRoundoff.
    apply Rmult_le_reg_r with (2 ^ 53); [apply pow_lt; lra|].
    rewrite Rmult_assoc, Rinv_l by (apply Rgt_not_eq, pow_lt; lra).
    lra. }
  assert (Hle : INR n <= 1000000).
  { rewrite INR_IZR_INZ. now apply IZR_le. }
  pose proof (pos_INR n) as Hpos.
  pose proof (roundingSlack_eq n) as He.
  pose proof (roundingSlack_nonneg n) as He0.
  assert (Hq : (1 + unitRoundoff) ^ n <= 1 + 2 * INR n * unitRoundoff)
    by (apply pow_one_plus_le; nra).
  assert (Hq2 : (1 + unitRoundoff) ^ (n + 2)
                <= 1 + 2 * INR (n + 2) * unitRoundoff).
  { apply pow_one_plus_le. rewrite plus_INR. simpl INR. nra. }
  rewrite plus_INR in Hq2. simpl INR in Hq2.
  rewrite pow_add in Hq2. simpl pow in Hq2 at 2.
  rewrite Rmult_1_r in Hq2.
  pose proof (pow_one_minus_ge n) as Hp.
  pose proof (pow_one_minus n) as [Hp0 Hp1].
  set (e := roundingSlack n) in *.
  set (p := (1 - unitRoundoff) ^ n) in *.
  set (q := (1 + unitRoundoff) ^ n) in *.
  set (u := unitRoundoff) in *.
  set (k := INR n) in *.
  assert (Hku : k * u <= 1 / 4) by nra.
  assert (Hhalf : 1 / 2 <= p) by lra.
  assert (HN : e * p <= (5 * k + 4) * u) by (rewrite He; lra).
  assert (H2 : e * (1 / 2) <= e * p) by (apply Rmult_le_compat_l; lra).
  lra.
Qed.

(** The summary in exact arithmetic is one of the rounded summaries. *)

Lemma reduce_exact (f : Investment.t -> R) (term : Investment.t -> R -> Prop)
    (l : list Investment.t) (acc : R) :
  (forall inv, term inv (f inv)) ->
  reduceRounded term acc l (fold_left (fun sum inv => sum + f inv) l acc).
Proof.
  intros Hterm. revert acc. induction l as [|inv rest IH]; intros acc; simpl.
  - constructor.
  - eapply reduce_step; [apply Hterm | apply rounded_exact | apply IH].
Qed.

Lemma summary_is_rounded (l : list Investment.t) :
  summaryRounded l (summary l).
Proof.
  unfold summaryRounded, summary; simpl.
  exists (fold_left
            (fun sum inv =>
               sum + Investment.amount inv * Investment.annualYield inv) l 0).
  do 2 eexists.
  split; [apply (reduce_exact Investment.amount); reflexivity|].
  split.
  { apply (reduce_exact
             (fun inv => Investment.amount inv * Investment.annualYield inv)).
    intros inv. apply rounded_exact. }
  split.
  { destruct (Rlt_dec 0 (fold_left _ l 0)); [apply rounded_exact|].
    reflexivity. }
  split; [apply rounded_exact|]. split; apply rounded_exact.
Qed.

Lemma rounded_between (x z : R) :
  0 < x -> x * (1 - unitRoundoff) <= z <= x * (1 + unitRoundoff) ->
  rounded x z.
Proof.
  intros Hx Hz. exists (z / x - 1). split.
  - apply Rabs_le. split.
    + apply Rmult_le_reg_r with x; [exact Hx|].
      replace ((z / x - 1) * x) with (z - x) by (field; lra). lra.
    + apply Rmult_le_reg_r with x; [exact Hx|].
      replace ((z / x - 1) * x) with (z - x) by (field; lra). lra.
  - field. lra.
Qed.

Ltac roundedFloats :=
  cbv beta; unfold realInvestment;
  cbn [Investment.amount Investment.annualYield
       Double.amount Double.annualYield];
  evalFloats; apply rounded_between; unfold unitRoundoff; lra.

(** The summary that the program computes on the binary64 accounts
    [sameYieldDoubles] is one of the rounded summaries of their images. *)

Lemma sameYieldDoubles_rounded :
  summaryRounded (map realInvestment sameYieldDoubles)
    (realSummary (Double.summary sameYieldDoubles)).
Proof.
  unfold summaryRounded.
  exists (realOfFloat (0 + 223045 * yieldDouble + 24982 * yieldDouble)%float),
         (realOfFloat
            (Double.weightedAverageYield (Double.summary sameYieldDoubles)
             / 100)%float),
         (realOfFloat
            (Double.totalAmount (Double.summary sameYieldDoubles)
             * (Double.weightedAverageYield (Double.summary sameYieldDoubles)
                / 100))%float).
  cbn [map sameYieldDoubles realInvestment realSummary
       Double.id Double.name Double.amount Double.annualYield
       PortfolioSummary.totalAmount PortfolioSummary.weightedAverageYield
       PortfolioSummary.monthlyIncome].
  split.
  { apply (reduce_step _ 0 _ _ (realOfFloat 223045)
             (realOfFloat (0 + 223045)%float)); [reflexivity | |].
    { roundedFloats. }
    apply (reduce_step _ _ _ _ (realOfFloat 24982)
             (realOfFloat (0 + 223045 + 24982)%float)); [reflexivity | |].
    { roundedFloats. }
    apply reduce_done. }
  split.
  { apply (reduce_step _ 0 _ _ (realOfFloat (223045 * yieldDouble)%float)
             (realOfFloat (0 + 223045 * yieldDouble)%float)).
    { roundedFloats. }
    { roundedFloats. }
    apply (reduce_step _ _ _ _ (realOfFloat (24982 * yieldDouble)%float)
             (realOfFloat
                (0 + 223045 * yieldDouble + 24982 * yieldDouble)%float)).
    { roundedFloats. }
    { roundedFloats. }
    apply reduce_done. }
  split.
  { destruct (Rlt_dec 0 _) as [_|Hn].
    - roundedFloats.
    - exfalso. apply Hn. evalFloats. lra. }
  split; [roundedFloats|]. split; roundedFloats.
Qed.

Lemma yield_range_up_to_rounding_witness :
  let accounts := map realInvestment sameYieldDoubles in
  let s := realSummary (Double.summary sameYieldDoubles) in
  PortfolioSummary.weightedAverageYield s < realOfFloat yieldDouble /\
  exists lo hi,
    minYield accounts = Some lo /\ maxYield accounts = Some hi /\
    lo - roundingSlack 2 * Rmax (Rabs lo) (Rabs hi)
    <= PortfolioSummary.weightedAverageYield s
    <= hi + roundingSlack 2 * Rmax (Rabs lo) (Rabs hi).
Proof.
  intros accounts s. split.
  - unfold s, realSummary. cbn [PortfolioSummary.weightedAverageYield].
    evalFloats. lra.
  - do 2 eexists. split; [reflexivity|]. split; [reflexivity|].
    apply (yield_range_up_to_rounding accounts s).
    + exact sameYieldDoubles_rounded.
    + unfold accounts, nonNegativeAmounts.
      cbn [map sameYieldDoubles].
      repeat constructor; unfold realInvestment;
        cbn [Investment.amount Double.amount]; evalFloats; lra.
    + unfold s, realSummary. cbn [PortfolioSummary.totalAmount].
      evalFloats. lra.
    + reflexivity.
    + reflexivity.
Defined.

(** C7, as stated, fails in two ways.  On an account list whose total is
    zero the average returned is [0], outside the range of the yields
    (one account without capital yielding 5).  On binary64 numbers, two
    accounts with positive amounts and the same yield 11.76 give an
    average below 11.76, which is both the minimum and the maximum. *)
Lemma yield_range_counterexamples :
  (nonNegativeAmounts [emptyAccount] /\ ~ yieldWithinRange [emptyAccount]) /\
  (forallb
     (fun inv =>
        PrimFloat.ltb 0 (Double.amount inv)
        && PrimFloat.eqb (Double.annualYield inv) yieldDouble)
     sameYieldDoubles = true /\
   PrimFloat.ltb 0 (Double.totalAmount (Double.summary sameYieldDoubles))
   = true /\
   PrimFloat.ltb
     (Double.weightedAverageYield (Double.summary sameYieldDoubles))
     yieldDouble = true).
Proof.
  split; [exact yield_range_counterexample|].
  repeat split; vm_compute; reflexivity.
Qed.

(** ** The date of an extra income *)

(** C5, at the failing input.  At eight in the evening of 13 November 2026
    in Mexico City, the extra income dated 2026-11-15 is credited on the
    first row, the row of 14 November, whose [toISOString] date is
    2026-11-15; the second row, the row of 15 November, gets the salary
    label of the 15th and no extra income. *)
Theorem extra_income_credited_a_day_early :
  exists day1 day2 : ProjectionDay.t,
    nth_error eveningProjection 0 = Some day1 /\
    nth_error eveningProjection 1 = Some day2 /\
    AdditionalIncome.date bonus = "2026-11-15"%string /\
    currentDateOf eveningStart 0 = JsDate.mk 2026 10 14 72000000 /\
    isoDateOf mexicoCity (currentDateOf eveningStart 0) = "2026-11-15"%string /\
    ProjectionDay.date day1 = "2026-11-14"%string /\
    ProjectionDay.income day1 = 500 /\
    ProjectionDay.events day1 = ["Bono: +$"%string] /\
    currentDateOf eveningStart 1 = JsDate.mk 2026 10 15 72000000 /\
    ProjectionDay.date day2 = "2026-11-15"%string /\
    ProjectionDay.income day2 = 0 /\
    ProjectionDay.events day2 = ["Quincena: +$"%string].
Proof.
  do 2 eexists.
  split; [evalProjection; reflexivity|].
  split; [evalProjection; reflexivity|].
  evalProjection.
  repeat split; try reflexivity; lra.
Qed.

(** ** More on the handlers *)

Lemma map_update_unique {A : Type} (key : A -> string) (upd : A -> A)
    (id : string) (l : list A) (k : nat) (x : A) :
  NoDup (map key l) -> nth_error l k = Some x -> key x = id ->
  map (fun y => if String.eqb (key y) id then upd y else y) l
  = firstn k l ++ upd x :: skipn (S k) l.
Proof.
  revert k. induction l as [|y rest IH]; intros k Hnd Hk Hx.
  - destruct k; discriminate.
  - simpl in Hnd. apply NoDup_cons_iff in Hnd. destruct Hnd as [Hy Hnd].
    destruct k as [|k]; simpl in Hk.
    + injection Hk as ->. simpl. rewrite Hx, String.eqb_refl.
      rewrite map_update_absent; [reflexivity|].
      apply not_in_ids. rewrite <- Hx. exact Hy.
    + assert (Hne : key y <> id).
      { intros He. apply Hy. rewrite He, <- Hx.
        apply in_map. eapply nth_error_In. exact Hk. }
      cbn [map firstn skipn app].
      destruct (String.eqb_spec (key y) id); [contradiction|].
      f_equal. now apply IH.
Qed.

(** X2.  When the ids are distinct, [updateInvestment] replaces exactly the
    investment that carries the id, at the place it has in the list, by
    the same record with the field set; every other investment, the
    salary and the extra incomes are left as they were. *)
Theorem update_changes_one_record (id : string) (fv : InvestmentField)
    (prev : AppData.t) (k : nat) (inv : Investment.t) :
  NoDup (map Investment.id (AppData.investments prev)) ->
  nth_error (AppData.investments prev) k = Some inv ->
  Investment.id inv = id ->
  let next := updateInvestment id fv prev in
  AppData.investments next
  = firstn k (AppData.investments prev)
    ++ setInvestmentField inv fv :: skipn (S k) (AppData.investments prev)
  /\ AppData.salary next = AppData.salary prev
  /\ AppData.extraIncomes next = AppData.extraIncomes prev.
Proof.
  intros Hnd Hk Hid next. unfold next, updateInvestment.
  cbn [AppData.investments AppData.salary AppData.extraIncomes].
  split; [|split; reflexivity].
  now apply (map_update_unique Investment.id
               (fun x => setInvestmentField x fv)).
Qed.

Lemma update_changes_one_record_witness :
  AppData.investments (updateInvestment "2" (InvAmount 750) sampleData)
  = [sampleAccount; Investment.mk "2" "Efectivo" 750 5].
Proof.
  apply (update_changes_one_record "2" (InvAmount 750) sampleData 1
           emptyAccount).
  - simpl. repeat constructor; simpl; intuition discriminate.
  - reflexivity.
  - reflexivity.
Defined.

Lemma filter_keeps_order {A : Type} (f : A -> bool) (l : list A) :
  subsequence (filter f l) l.
Proof.
  induction l as [|x rest IH]; simpl.
  - constructor.
  - destruct (f x); now constructor.
Qed.

Lemma filter_remove_count {A : Type} (key : A -> string) (id : string)
    (l : list A) :
  (List.length (filter (fun x => negb (String.eqb (key x) id)) l)
   + countId key id l)%nat
  = List.length l.
Proof.
  unfold countId. induction l as [|x rest IH]; simpl.
  - reflexivity.
  - destruct (String.eqb_spec (key x) id) as [He|Hne];
      destruct (string_dec (key x) id) as [He'|Hne']; try contradiction;
      simpl; lia.
Qed.

Lemma filter_remove_members {A : Type} (key : A -> string) (id : string)
    (l : list A) (x : A) :
  In x (filter (fun y => negb (String.eqb (key y) id)) l)
  <-> In x l /\ key x <> id.
Proof.
  rewrite filter_In.
  destruct (String.eqb_spec (key x) id); simpl; intuition congruence.
Qed.

(** X3.  A deletion keeps the records in the order they had: the list
    after it is the list before it with records left out; the records
    left are exactly those with another id, their number is the number
    before minus the number of records with the deleted id, and the rest
    of the state is untouched.  This holds for the investments and for the
    extra incomes. *)
Theorem delete_keeps_order (id : string) (prev : AppData.t) :
  let next := deleteInvestment id prev in
  let next' := removeExtraIncome id prev in
  (subsequence (AppData.investments next) (AppData.investments prev) /\
   (forall inv, In inv (AppData.investments next)
                <-> In inv (AppData.investments prev)
                    /\ Investment.id inv <> id) /\
   (List.length (AppData.investments next)
    + countId Investment.id id (AppData.investments prev))%nat
   = List.length (AppData.investments prev) /\
   AppData.salary next = AppData.salary prev /\
   AppData.extraIncomes next = AppData.extraIncomes prev) /\
  (subsequence (AppData.extraIncomes next') (AppData.extraIncomes prev) /\
   (forall item, In item (AppData.extraIncomes next')
                 <-> In item (AppData.extraIncomes prev)
                     /\ AdditionalIncome.id item <> id) /\
   (List.length (AppData.extraIncomes next')
    + countId AdditionalIncome.id id (AppData.extraIncomes prev))%nat
   = List.length (AppData.extraIncomes prev) /\
   AppData.salary next' = AppData.salary prev /\
   AppData.investments next' = AppData.investments prev).
Proof.
  destruct prev as [invs sal extras].
  unfold deleteInvestment, removeExtraIncome.
  cbn [AppData.investments AppData.salary AppData.extraIncomes].
  split.
  - split; [apply filter_keeps_order|].
    split; [intros inv; apply (filter_remove_members Investment.id)|].
    split; [apply (filter_remove_count Investment.id)|].
    split; reflexivity.
  - split; [apply filter_keeps_order|].
    split; [intros item; apply (filter_remove_members AdditionalIncome.id)|].
    split; [apply (filter_remove_count AdditionalIncome.id)|].
    split; reflexivity.
Qed.

(** ** The monthly income without capital *)

(** X19.  Whenever the total amount is zero or negative, the monthly
    income of the summary is [0], whatever the yields. *)
Theorem no_capital_no_monthly_income (l : list Investment.t) :
  PortfolioSummary.totalAmount (summary l) <= 0 ->
  PortfolioSummary.monthlyIncome (summary l) = 0.
Proof.
  intros Ht. rewrite summary_monthly.
  rewrite summary_total in Ht.
  rewrite (summary_yield_nonpos l Ht). lra.
Qed.

Lemma no_capital_no_monthly_income_witness :
  PortfolioSummary.monthlyIncome (summary [debtAccount]) = 0.
Proof.
  apply (no_capital_no_monthly_income [debtAccount]).
  simpl. lra.
Defined.

Lemma first_revision_daily_interest_witness :
  exists d previous,
    nth_error
      (FirstRevision.dailyProjection plainDate (summary [sampleAccount])
         novemberStart 3) 1 = Some d /\
    nth_error
      (FirstRevision.dailyProjection plainDate (summary [sampleAccount])
         novemberStart 3) 0 = Some previous /\
    FirstRevision.day d = 2%nat /\
    FirstRevision.total d
    = FirstRevision.total previous + FirstRevision.earned d.
Proof.
  assert (Hd : {d | nth_error
                      (FirstRevision.dailyProjection plainDate
                         (summary [sampleAccount]) novemberStart 3) 1
                    = Some d})
    by (eexists; evalProjection; reflexivity).
  destruct Hd as [d Hd]. exists d.
  assert (Hy : -100 < PortfolioSummary.weightedAverageYield
                        (summary [sampleAccount]))
    by (rewrite (proj2 sampleAccount_summary); lra).
  destruct (first_revision_daily_interest plainDate (summary [sampleAccount])
              novemberStart 3 1 d Hy Hd)
    as (_ & Hday & before & (previous & Hp & Hb) & _ & Ht).
  exists previous. split; [exact Hd|]. split; [exact Hp|].
  split; [exact Hday|]. rewrite <- Hb. exact Ht.
Defined.
